(** * buttonHandler.h: polling button dispatcher

    A shallow embedding of the two classes of [src/buttonHandler.h],
    [Button] and [ButtonHandler], and the properties of the registration
    calls, of [getState] and of the polling pass [update].

    Modelling conventions.
    - [byte] (Arduino's [uint8_t]) is [Byte.byte]; a [byte] used where the
      code wants an [int] is promoted with [int_of_byte].
    - [int] is [Z].  The only [int] the code computes is
      [buttons.size() - 1], taken after a [push_back]; it is a vector
      position and is kept without wrap-around.
    - A function pointer is the name of the function it points to; a field
      the constructor in use never assigns holds [None].
    - The methods mutate [this]: each one takes the object and returns the
      object it leaves behind.  [getState] also returns the value read,
      [None] standing for the read past the end of [buttons].
    - [digitalRead] is what the board answers during one pass of [update],
      an [int] per pin as on Arduino.  The handlers are code of the host
      program: [update] reports each call it makes as an [event], in call
      order, and the handlers do not touch the [ButtonHandler]. *)

From Stdlib Require Import ZArith Strings.Byte.
From stdpp Require Import gmap list strings.

Local Open Scope Z_scope.

(** ** Scalars *)

Abbreviation byte := Byte.byte.

(** Integral promotion of a [byte] to [int]. *)
Definition int_of_byte (b : byte) : Z := Z.of_N (Byte.to_N b).

(** Arduino.h: [#define HIGH 0x1]. *)
Definition HIGH : Z := 1.
Definition LOW : Z := 0.

(** Pointers to [void f()] and to [void f(int)], by the name of the function. *)
Definition callback : Type := string.
Definition pin_callback : Type := string.

(** ** class Button *)

Module Button.

Record t : Type := mk {
  pin : byte;
  state : bool;
  pressHandler : option callback;
  releaseHandler : option callback;
  hasHandlers : bool
}.

(** [Button( byte _pin )] *)
Definition new (_pin : byte) : t :=
  {| pin := _pin;
     state := false;
     pressHandler := None;
     releaseHandler := None;
     hasHandlers := false |}.

(** [Button( byte _pin, _pressHandler, _releaseHandler )] *)
Definition new_with (_pin : byte) (_pressHandler _releaseHandler : callback) : t :=
  {| pin := _pin;
     state := false;
     pressHandler := Some _pressHandler;
     releaseHandler := Some _releaseHandler;
     hasHandlers := true |}.

(** [button.state = newState] *)
Definition set_state (newState : bool) (button : t) : t :=
  {| pin := pin button;
     state := newState;
     pressHandler := pressHandler button;
     releaseHandler := releaseHandler button;
     hasHandlers := hasHandlers button |}.

End Button.

(** ** The calls [update] makes *)

Inductive event : Type :=
| ButtonPress (f : option callback)                   (* button.pressHandler()      *)
| AnyPress (f : option pin_callback) (arg : Z)        (* pressHandler(button.pin)   *)
| ButtonRelease (f : option callback)                 (* button.releaseHandler()    *)
| AnyRelease (f : option pin_callback) (arg : Z).     (* releaseHandler(button.pin) *)

Definition is_button_press (e : event) : bool :=
  match e with ButtonPress _ => true | _ => false end.
Definition is_button_release (e : event) : bool :=
  match e with ButtonRelease _ => true | _ => false end.
Definition is_any_press (e : event) : bool :=
  match e with AnyPress _ _ => true | _ => false end.
Definition is_any_release (e : event) : bool :=
  match e with AnyRelease _ _ => true | _ => false end.

Definition is_button_event (e : event) : bool :=
  is_button_press e || is_button_release e.
Definition is_any_event (e : event) : bool :=
  is_any_press e || is_any_release e.

(** ** class ButtonHandler *)

Module ButtonHandler.

Record t : Type := mk {
  buttons : list Button.t;
  pinMap : gmap Z Z;
  pressHandler : option pin_callback;
  releaseHandler : option pin_callback;
  hasHandlers : bool
}.

(** [ButtonHandler()] *)
Definition new : t :=
  {| buttons := [];
     pinMap := ∅;
     pressHandler := None;
     releaseHandler := None;
     hasHandlers := false |}.

(** [ButtonHandler( _pressHandler, _releaseHandler )] *)
Definition new_with (_pressHandler _releaseHandler : pin_callback) : t :=
  {| buttons := [];
     pinMap := ∅;
     pressHandler := Some _pressHandler;
     releaseHandler := Some _releaseHandler;
     hasHandlers := true |}.

(** [buttons.push_back(b)] *)
Definition push_back (b : Button.t) (self : t) : t :=
  {| buttons := buttons self ++ [b];
     pinMap := pinMap self;
     pressHandler := pressHandler self;
     releaseHandler := releaseHandler self;
     hasHandlers := hasHandlers self |}.

(** [pinMap[k] = v] *)
Definition pinMap_assign (k v : Z) (self : t) : t :=
  {| buttons := buttons self;
     pinMap := <[k := v]> (pinMap self);
     pressHandler := pressHandler self;
     releaseHandler := releaseHandler self;
     hasHandlers := hasHandlers self |}.

(** [buttons.size() - 1], read where [buttons] is not empty. *)
Definition last_index (self : t) : Z :=
  Z.of_nat (length (buttons self)) - 1.

(** [void registerButton( byte _pin )] *)
Definition registerButton (_pin : byte) (self : t) : t :=
  let registeredButton := Button.new _pin in
  let self := push_back registeredButton self in
  pinMap_assign (int_of_byte _pin) (last_index self) self.

(** [void registerButton( std::vector<byte> _pins )]: each turn of the
    loop calls the overload above and then assigns the index again. *)
Fixpoint registerButton_list (_pins : list byte) (self : t) : t :=
  match _pins with
  | [] => self
  | _pin :: rest =>
      let self := registerButton _pin self in
      let self := pinMap_assign (int_of_byte _pin) (last_index self) self in
      registerButton_list rest self
  end.

(** [void registerButton( byte _pin, _pressHandler, _releaseHandler )] *)
Definition registerButton_with
    (_pin : byte) (_pressHandler _releaseHandler : callback) (self : t) : t :=
  let registeredButton := Button.new_with _pin _pressHandler _releaseHandler in
  let self := push_back registeredButton self in
  pinMap_assign (int_of_byte _pin) (last_index self) self.

(** [void registerHandlers( _pressHandler, _releaseHandler )] *)
Definition registerHandlers (_pressHandler _releaseHandler : pin_callback) (self : t) : t :=
  {| buttons := buttons self;
     pinMap := pinMap self;
     pressHandler := Some _pressHandler;
     releaseHandler := Some _releaseHandler;
     hasHandlers := true |}.

(** [pinMap[k]] read as a value: [std::map::operator[]] binds an absent
    key to a value-initialised [int], then hands out the bound value. *)
Definition pinMap_subscript (k : Z) (self : t) : Z * t :=
  match pinMap self !! k with
  | Some v => (v, self)
  | None => (0, pinMap_assign k 0 self)
  end.

(** [v[i]] for an [int] [i]: the subscript is converted to [size_t], so a
    negative one is past the end like any [i >= v.size()]. *)
Definition vector_at {A : Type} (v : list A) (i : Z) : option A :=
  if i <? 0 then None else v !! Z.to_nat i.

(** [bool getState(int _pin)] *)
Definition getState (_pin : Z) (self : t) : option bool * t :=
  let '(i, self) := pinMap_subscript _pin self in
  (Button.state <$> vector_at (buttons self) i, self).

(** The body of the loop of [update], for one element of [buttons]. *)
Definition update_button (digitalRead : byte → Z) (self : t) (button : Button.t)
  : Button.t * list event :=
  let newState := digitalRead (Button.pin button) =? HIGH in
  if negb (Bool.eqb newState (Button.state button)) then
    let button := Button.set_state newState button in
    (button,
     if newState then
       (if Button.hasHandlers button
        then [ButtonPress (Button.pressHandler button)] else [])
       ++ (if hasHandlers self
           then [AnyPress (pressHandler self) (int_of_byte (Button.pin button))] else [])
     else
       (if Button.hasHandlers button
        then [ButtonRelease (Button.releaseHandler button)] else [])
       ++ (if hasHandlers self
           then [AnyRelease (releaseHandler self) (int_of_byte (Button.pin button))] else []))
  else (button, []).

(** [for ( Button &button : buttons )] *)
Fixpoint update_loop (digitalRead : byte → Z) (self : t) (bs : list Button.t)
  : list Button.t * list event :=
  match bs with
  | [] => ([], [])
  | button :: rest =>
      let '(button, evs) := update_button digitalRead self button in
      let '(rest, evs') := update_loop digitalRead self rest in
      (button :: rest, evs ++ evs')
  end.

(** [void update()] *)
Definition update (digitalRead : byte → Z) (self : t) : t * list event :=
  let '(bs, evs) := update_loop digitalRead self (buttons self) in
  ({| buttons := bs;
      pinMap := pinMap self;
      pressHandler := pressHandler self;
      releaseHandler := releaseHandler self;
      hasHandlers := hasHandlers self |}, evs).

End ButtonHandler.

(** ** Programs over a [ButtonHandler]

    A host program builds the object with one of the two constructors and
    then calls its mutating methods; [getState] is kept apart, next to the
    theorems that read with it. *)

Inductive ctor : Type :=
| New
| NewWith (_pressHandler _releaseHandler : pin_callback).

Definition construct (k : ctor) : ButtonHandler.t :=
  match k with
  | New => ButtonHandler.new
  | NewWith p r => ButtonHandler.new_with p r
  end.

Inductive call : Type :=
| RegisterButton (_pin : byte)
| RegisterButtonList (_pins : list byte)
| RegisterButtonWith (_pin : byte) (_pressHandler _releaseHandler : callback)
| RegisterHandlers (_pressHandler _releaseHandler : pin_callback)
| Update (digitalRead : byte → Z).

Definition exec (c : call) (self : ButtonHandler.t) : ButtonHandler.t * list event :=
  match c with
  | RegisterButton p => (ButtonHandler.registerButton p self, [])
  | RegisterButtonList ps => (ButtonHandler.registerButton_list ps self, [])
  | RegisterButtonWith p f g => (ButtonHandler.registerButton_with p f g self, [])
  | RegisterHandlers f g => (ButtonHandler.registerHandlers f g self, [])
  | Update digitalRead => ButtonHandler.update digitalRead self
  end.

(** The calls of [cs] from left to right; the events of all of them. *)
Fixpoint run (cs : list call) (self : ButtonHandler.t) : ButtonHandler.t * list event :=
  match cs with
  | [] => (self, [])
  | c :: rest =>
      let '(self, evs) := exec c self in
      let '(self, evs') := run rest self in
      (self, evs ++ evs')
  end.

Definition is_update (c : call) : bool :=
  match c with Update _ => true | _ => false end.

(** The pins a call registers, in registration order. *)
Definition pins_of (c : call) : list byte :=
  match c with
  | RegisterButton p => [p]
  | RegisterButtonList ps => ps
  | RegisterButtonWith p _ _ => [p]
  | RegisterHandlers _ _ => []
  | Update _ => []
  end.

(** The record a single-pin registration appends. *)
Definition record_of (c : call) : option Button.t :=
  match c with
  | RegisterButton p => Some (Button.new p)
  | RegisterButtonWith p f g => Some (Button.new_with p f g)
  | _ => None
  end.

(** The events of one pass of [update], one list per element of
    [buttons]. *)
Definition update_segments (digitalRead : byte → Z) (self : ButtonHandler.t)
  : list (list event) :=
  map (λ button, snd (ButtonHandler.update_button digitalRead self button))
      (ButtonHandler.buttons self).

(** The level a pass reads for a pin, as [update] takes it. *)
Definition reads_high (digitalRead : byte → Z) (p : byte) : bool :=
  digitalRead p =? HIGH.

(** ** The index invariant of the spec *)

Definition index_invariant (self : ButtonHandler.t) : Prop :=
  ∀ (p i : Z), ButtonHandler.pinMap self !! p = Some i →
    ∃ b, ButtonHandler.vector_at (ButtonHandler.buttons self) i = Some b
         ∧ int_of_byte (Button.pin b) = p.

(** The spec's [registerPins]: [registerPin] on each element, in order. *)
Definition registerPins_spec (pins : list byte) (self : ButtonHandler.t) : ButtonHandler.t :=
  foldl (λ self p, ButtonHandler.registerButton p self) self pins.

(** The callbacks of a transition to level [lvl] in the words of the spec:
    the record's own handler, then the handler of the [ButtonHandler]
    with the pin as argument, each one only if present. *)
Definition button_call (lvl : bool) (b : Button.t) : event :=
  if lvl then ButtonPress (Button.pressHandler b)
  else ButtonRelease (Button.releaseHandler b).

Definition any_call (lvl : bool) (self : ButtonHandler.t) (p : byte) : event :=
  if lvl then AnyPress (ButtonHandler.pressHandler self) (int_of_byte p)
  else AnyRelease (ButtonHandler.releaseHandler self) (int_of_byte p).

Definition transition_calls (lvl : bool) (self : ButtonHandler.t) (b : Button.t)
  : list event :=
  (if Button.hasHandlers b then [button_call lvl b] else [])
  ++ (if ButtonHandler.hasHandlers self then [any_call lvl self (Button.pin b)] else []).

(** A call that is no [update], or an [update] that reads pin [p] at
    level [lvl]. *)
Definition reads_level (p : byte) (lvl : bool) (c : call) : Prop :=
  match c with
  | Update digitalRead => reads_high digitalRead p = lvl
  | _ => True
  end.

(** Every record is found again from its pin. *)
Definition all_indexed (self : ButtonHandler.t) : Prop :=
  ∀ b, b ∈ ButtonHandler.buttons self →
    is_Some (ButtonHandler.pinMap self !! int_of_byte (Button.pin b)).

(** Two programs that differ at most in what the board answers for pins
    that no record has: the same calls, and at each [update] the same
    answer for every pin in [pins], the pins registered so far. *)
Fixpoint same_reads (pins : list byte) (cs1 cs2 : list call) : Prop :=
  match cs1, cs2 with
  | [], [] => True
  | Update d1 :: rest1, Update d2 :: rest2 =>
      (∀ p, p ∈ pins → d1 p = d2 p) ∧ same_reads pins rest1 rest2
  | c1 :: rest1, c2 :: rest2 =>
      c1 = c2 ∧ same_reads (pins ++ pins_of c1) rest1 rest2
  | _, _ => False
  end.

(** The pins a program registers, in registration order. *)
Definition registered_pins (cs : list call) : list byte :=
  concat (map pins_of cs).

(** What a [Button] is for its whole life: its pin and its handlers. *)
Definition same_identity (b b' : Button.t) : Prop :=
  Button.pin b' = Button.pin b
  ∧ Button.hasHandlers b' = Button.hasHandlers b
  ∧ Button.pressHandler b' = Button.pressHandler b
  ∧ Button.releaseHandler b' = Button.releaseHandler b.

(** A handler pointer is read for a call only where it was assigned: the
    flag of an object is set only by the code that assigns both of its
    pointers. *)
Definition button_assigned (b : Button.t) : Prop :=
  Button.hasHandlers b = true →
  is_Some (Button.pressHandler b) ∧ is_Some (Button.releaseHandler b).

Definition handlers_assigned (self : ButtonHandler.t) : Prop :=
  (ButtonHandler.hasHandlers self = true →
   is_Some (ButtonHandler.pressHandler self) ∧ is_Some (ButtonHandler.releaseHandler self))
  ∧ Forall button_assigned (ButtonHandler.buttons self).

(** The pointer an event was called through. *)
Definition called_through (e : event) : option string :=
  match e with
  | ButtonPress f | ButtonRelease f => f
  | AnyPress f _ | AnyRelease f _ => f
  end.

(** ** The whole interface

    [getState] beside the mutating calls, and what the host program sees of
    each call: the handler calls it made, or the value it returned. *)

Inductive api : Type :=
| Mutate (c : call)
| GetState (_pin : Z).

Inductive observation : Type :=
| Called (evs : list event)
| Returned (r : option bool).

Definition exec_api (a : api) (self : ButtonHandler.t) : ButtonHandler.t * observation :=
  match a with
  | Mutate c => let '(self, evs) := exec c self in (self, Called evs)
  | GetState _pin => let '(r, self) := ButtonHandler.getState _pin self in (self, Returned r)
  end.

Fixpoint run_api (prog : list api) (self : ButtonHandler.t)
  : ButtonHandler.t * list observation :=
  match prog with
  | [] => (self, [])
  | a :: rest =>
      let '(self, o) := exec_api a self in
      let '(self, os) := run_api rest self in
      (self, o :: os)
  end.

Definition is_registerHandlers (c : call) : bool :=
  match c with RegisterHandlers _ _ => true | _ => false end.

(** The test of the loop body: does the level read differ from the stored
    state? *)
Definition changed (digitalRead : byte → Z) (b : Button.t) : bool :=
  negb (Bool.eqb (reads_high digitalRead (Button.pin b)) (Button.state b)).

(** The calls a program makes for the record at position [i], over all its
    [update]s. *)
Fixpoint record_events (i : nat) (cs : list call) (self : ButtonHandler.t) : list event :=
  match cs with
  | [] => []
  | c :: rest =>
      match c with
      | Update digitalRead => default [] (update_segments digitalRead self !! i)
      | _ => []
      end ++ record_events i rest (fst (exec c self))
  end.

(** Is the event a press (of either kind)? *)
Definition is_press (e : event) : bool :=
  is_button_press e || is_any_press e.

(** Levels that keep changing, the first one away from [s]. *)
Fixpoint alternating (s : bool) (ds : list bool) : Prop :=
  match ds with
  | [] => True
  | d :: rest => d = negb s ∧ alternating d rest
  end.

(** No record of a pin lies behind the position its pin is bound to. *)
Definition index_last (self : ButtonHandler.t) : Prop :=
  ∀ (q i : Z) (j : nat) (b : Button.t),
    ButtonHandler.pinMap self !! q = Some i →
    ButtonHandler.buttons self !! j = Some b →
    int_of_byte (Button.pin b) = q →
    Z.of_nat j ≤ i.

(** * Properties *)

(** ** Scalars *)

Lemma int_of_byte_inj (a b : byte) : int_of_byte a = int_of_byte b → a = b.
Proof.
  unfold int_of_byte. intros H%N2Z.inj.
  pose proof (Byte.of_to_N a) as Ha. rewrite H, Byte.of_to_N in Ha.
  congruence.
Qed.

(** A promoted pin fits an [int] of any width. *)
Lemma int_of_byte_range (b : byte) : 0 ≤ int_of_byte b < 256.
Proof.
  unfold int_of_byte. pose proof (Byte.to_N_bounded b) as H.
  lia.
Qed.

(** ** The loop of [update] *)

Section UpdateLoop.
Variable digitalRead : byte → Z.
Variable self : ButtonHandler.t.

Let body := ButtonHandler.update_button digitalRead self.

Lemma update_loop_map (bs : list Button.t) :
  ButtonHandler.update_loop digitalRead self bs
  = (map (λ b, fst (body b)) bs, concat (map (λ b, snd (body b)) bs)).
Proof.
  induction bs as [|b bs IH]; [done|].
  cbn [ButtonHandler.update_loop map concat]. rewrite IH.
  subst body. by destruct (ButtonHandler.update_button digitalRead self b).
Qed.

Lemma update_buttons :
  ButtonHandler.buttons (fst (ButtonHandler.update digitalRead self))
  = map (λ b, fst (body b)) (ButtonHandler.buttons self).
Proof. unfold ButtonHandler.update. by rewrite update_loop_map. Qed.

Lemma update_events :
  snd (ButtonHandler.update digitalRead self) = concat (update_segments digitalRead self).
Proof. unfold ButtonHandler.update. by rewrite update_loop_map. Qed.

Lemma update_pinMap :
  ButtonHandler.pinMap (fst (ButtonHandler.update digitalRead self))
  = ButtonHandler.pinMap self.
Proof. unfold ButtonHandler.update. by rewrite update_loop_map. Qed.

Lemma update_hasHandlers :
  ButtonHandler.hasHandlers (fst (ButtonHandler.update digitalRead self))
  = ButtonHandler.hasHandlers self.
Proof. unfold ButtonHandler.update. by rewrite update_loop_map. Qed.

Lemma update_handlers :
  ButtonHandler.pressHandler (fst (ButtonHandler.update digitalRead self))
  = ButtonHandler.pressHandler self
  ∧ ButtonHandler.releaseHandler (fst (ButtonHandler.update digitalRead self))
    = ButtonHandler.releaseHandler self.
Proof. unfold ButtonHandler.update. by rewrite update_loop_map. Qed.

Lemma update_button_pin (b : Button.t) : Button.pin (fst (body b)) = Button.pin b.
Proof.
  subst body. unfold ButtonHandler.update_button. cbv zeta.
  by destruct (negb _).
Qed.

Lemma update_button_handlers (b : Button.t) :
  Button.hasHandlers (fst (body b)) = Button.hasHandlers b
  ∧ Button.pressHandler (fst (body b)) = Button.pressHandler b
  ∧ Button.releaseHandler (fst (body b)) = Button.releaseHandler b.
Proof.
  subst body. unfold ButtonHandler.update_button. cbv zeta.
  by destruct (negb _).
Qed.

Lemma update_button_state (b : Button.t) :
  Button.state (fst (body b)) = reads_high digitalRead (Button.pin b).
Proof.
  subst body. unfold ButtonHandler.update_button, reads_high. cbv zeta.
  destruct (digitalRead (Button.pin b) =? HIGH), (Button.state b) eqn:E; done.
Qed.

Lemma update_button_same (b : Button.t) :
  reads_high digitalRead (Button.pin b) = Button.state b → body b = (b, []).
Proof.
  subst body. unfold ButtonHandler.update_button, reads_high. cbv zeta. intros ->.
  by rewrite Bool.eqb_reflx.
Qed.

Lemma update_button_changed (b : Button.t) (lvl : bool) :
  reads_high digitalRead (Button.pin b) = lvl →
  Button.state b = negb lvl →
  body b = (Button.set_state lvl b, transition_calls lvl self b).
Proof.
  subst body. unfold ButtonHandler.update_button, reads_high. cbv zeta. intros -> Hs.
  rewrite Hs. unfold transition_calls, button_call, any_call.
  by destruct lvl.
Qed.

Lemma update_lookup (i : nat) (b : Button.t) :
  ButtonHandler.buttons self !! i = Some b →
  ButtonHandler.buttons (fst (ButtonHandler.update digitalRead self)) !! i
  = Some (fst (body b)).
Proof. intros H. by rewrite update_buttons, list_lookup_fmap, H. Qed.

Lemma update_segments_lookup (i : nat) (b : Button.t) :
  ButtonHandler.buttons self !! i = Some b →
  update_segments digitalRead self !! i = Some (snd (body b)).
Proof. intros H. unfold update_segments. by rewrite list_lookup_fmap, H. Qed.

End UpdateLoop.

(** ** Registration *)

Lemma last_index_push_back (b : Button.t) (self : ButtonHandler.t) :
  ButtonHandler.last_index (ButtonHandler.push_back b self)
  = Z.of_nat (length (ButtonHandler.buttons self)).
Proof.
  unfold ButtonHandler.last_index, ButtonHandler.push_back. cbn.
  rewrite length_app. cbn. lia.
Qed.

Lemma registerButton_buttons (p : byte) (self : ButtonHandler.t) :
  ButtonHandler.buttons (ButtonHandler.registerButton p self)
  = ButtonHandler.buttons self ++ [Button.new p].
Proof. done. Qed.

Lemma registerButton_pinMap (p : byte) (self : ButtonHandler.t) :
  ButtonHandler.pinMap (ButtonHandler.registerButton p self)
  = <[int_of_byte p := Z.of_nat (length (ButtonHandler.buttons self))]>
      (ButtonHandler.pinMap self).
Proof.
  unfold ButtonHandler.registerButton. cbn [ButtonHandler.pinMap ButtonHandler.pinMap_assign].
  by rewrite last_index_push_back.
Qed.

Lemma registerButton_with_buttons (p : byte) (f g : callback) (self : ButtonHandler.t) :
  ButtonHandler.buttons (ButtonHandler.registerButton_with p f g self)
  = ButtonHandler.buttons self ++ [Button.new_with p f g].
Proof. done. Qed.

Lemma registerButton_with_pinMap (p : byte) (f g : callback) (self : ButtonHandler.t) :
  ButtonHandler.pinMap (ButtonHandler.registerButton_with p f g self)
  = <[int_of_byte p := Z.of_nat (length (ButtonHandler.buttons self))]>
      (ButtonHandler.pinMap self).
Proof.
  unfold ButtonHandler.registerButton_with.
  cbn [ButtonHandler.pinMap ButtonHandler.pinMap_assign].
  by rewrite last_index_push_back.
Qed.

(** The second assignment in the loop of the list overload writes the value
    that is already there. *)
Lemma registerButton_reassign (p : byte) (self : ButtonHandler.t) :
  let self' := ButtonHandler.registerButton p self in
  ButtonHandler.pinMap_assign (int_of_byte p) (ButtonHandler.last_index self') self'
  = self'.
Proof.
  unfold ButtonHandler.registerButton, ButtonHandler.pinMap_assign. cbn.
  f_equal. apply insert_insert_eq.
Qed.

Lemma registerButton_list_foldl (ps : list byte) (self : ButtonHandler.t) :
  ButtonHandler.registerButton_list ps self
  = foldl (λ self p, ButtonHandler.registerButton p self) self ps.
Proof.
  revert self. induction ps as [|p ps IH]; intros self; [done|].
  cbn [ButtonHandler.registerButton_list foldl].
  pose proof (registerButton_reassign p self) as E. cbv zeta in E.
  by rewrite E, IH.
Qed.

(** ** Programs *)

Lemma run_app (cs1 cs2 : list call) (self : ButtonHandler.t) :
  run (cs1 ++ cs2) self
  = (fst (run cs2 (fst (run cs1 self))),
     snd (run cs1 self) ++ snd (run cs2 (fst (run cs1 self)))).
Proof.
  revert self. induction cs1 as [|c cs1 IH]; intros self.
  - cbn. by destruct (run cs2 self).
  - cbn [run app]. destruct (exec c self) as [s1 e1].
    rewrite IH. destruct (run cs1 s1) as [s2 e2]. cbn.
    by rewrite app_assoc.
Qed.

Lemma run_cons (c : call) (cs : list call) (self : ButtonHandler.t) :
  run (c :: cs) self
  = (fst (run cs (fst (exec c self))),
     snd (exec c self) ++ snd (run cs (fst (exec c self)))).
Proof.
  cbn [run]. destruct (exec c self) as [s1 e1]. cbn.
  by destruct (run cs s1).
Qed.

(** A property of the object that every call keeps holds along a whole
    program. *)
Lemma run_preserves (I : ButtonHandler.t → Prop) :
  (∀ c self, I self → I (fst (exec c self))) →
  ∀ cs self, I self → I (fst (run cs self)).
Proof.
  intros Hstep cs. induction cs as [|c cs IH]; intros self HI; [done|].
  rewrite run_cons. cbn. by apply IH, Hstep.
Qed.

(** ** The index *)

Lemma vector_at_nat {A : Type} (v : list A) (n : nat) :
  ButtonHandler.vector_at v (Z.of_nat n) = v !! n.
Proof.
  unfold ButtonHandler.vector_at.
  destruct (Z.ltb_spec (Z.of_nat n) 0); [lia|]. by rewrite Nat2Z.id.
Qed.

Lemma vector_at_Some {A : Type} (v : list A) (i : Z) (x : A) :
  ButtonHandler.vector_at v i = Some x ↔ 0 ≤ i ∧ v !! Z.to_nat i = Some x.
Proof.
  unfold ButtonHandler.vector_at.
  destruct (Z.ltb_spec i 0) as [Hlt|Hge]; split.
  - done.
  - intros [? _]. lia.
  - intros ?. split; [lia | done].
  - by intros [_ ?].
Qed.

Lemma vector_at_app_l {A : Type} (v w : list A) (i : Z) (x : A) :
  ButtonHandler.vector_at v i = Some x → ButtonHandler.vector_at (v ++ w) i = Some x.
Proof.
  rewrite !vector_at_Some. intros [? H]. split; [done|].
  rewrite lookup_app_l; [done|]. by eapply lookup_lt_Some.
Qed.

Lemma vector_at_map {A B : Type} (f : A → B) (v : list A) (i : Z) :
  ButtonHandler.vector_at (map f v) i = f <$> ButtonHandler.vector_at v i.
Proof.
  unfold ButtonHandler.vector_at. destruct (i <? 0); [done|].
  apply list_lookup_fmap.
Qed.

(** Appending a record and binding its pin to the new position. *)
Lemma index_invariant_append (self self' : ButtonHandler.t) (b : Button.t) :
  ButtonHandler.buttons self' = ButtonHandler.buttons self ++ [b] →
  ButtonHandler.pinMap self'
  = <[int_of_byte (Button.pin b) := Z.of_nat (length (ButtonHandler.buttons self))]>
      (ButtonHandler.pinMap self) →
  index_invariant self → index_invariant self'.
Proof.
  intros Hb Hm Hinv p i. rewrite Hm, Hb, lookup_insert.
  case_decide as Hp.
  - intros [= <-]. exists b. split; [|done].
    rewrite vector_at_nat. apply list_lookup_middle. done.
  - intros (b' & Hb' & Hpin)%Hinv. exists b'. split; [|done].
    by apply vector_at_app_l.
Qed.

Lemma all_indexed_append (self self' : ButtonHandler.t) (b : Button.t) :
  ButtonHandler.buttons self' = ButtonHandler.buttons self ++ [b] →
  ButtonHandler.pinMap self'
  = <[int_of_byte (Button.pin b) := Z.of_nat (length (ButtonHandler.buttons self))]>
      (ButtonHandler.pinMap self) →
  all_indexed self → all_indexed self'.
Proof.
  intros Hb Hm Hall b'. rewrite Hb, Hm, elem_of_app, list_elem_of_singleton.
  intros [Hin| ->].
  - rewrite lookup_insert. case_decide; [done|]. by apply Hall.
  - by rewrite lookup_insert_eq.
Qed.

Lemma index_invariant_update (digitalRead : byte → Z) (self : ButtonHandler.t) :
  index_invariant self →
  index_invariant (fst (ButtonHandler.update digitalRead self)).
Proof.
  intros Hinv p i. rewrite update_pinMap, update_buttons, vector_at_map.
  intros (b & -> & Hpin)%Hinv. eexists. split; [done|].
  by rewrite update_button_pin.
Qed.

Lemma all_indexed_update (digitalRead : byte → Z) (self : ButtonHandler.t) :
  all_indexed self → all_indexed (fst (ButtonHandler.update digitalRead self)).
Proof.
  intros Hall b'. rewrite update_pinMap, update_buttons.
  intros (b & -> & Hin)%list_elem_of_fmap. rewrite update_button_pin. by apply Hall.
Qed.

Lemma index_invariant_foldl (ps : list byte) (self : ButtonHandler.t) :
  index_invariant self ∧ all_indexed self →
  index_invariant (foldl (λ self p, ButtonHandler.registerButton p self) self ps)
  ∧ all_indexed (foldl (λ self p, ButtonHandler.registerButton p self) self ps).
Proof.
  revert self. induction ps as [|p ps IH]; intros self [Hinv Hall]; [done|].
  cbn [foldl]. apply IH. split.
  - eapply (index_invariant_append self _ (Button.new p)); eauto using registerButton_pinMap.
  - eapply (all_indexed_append self _ (Button.new p)); eauto using registerButton_pinMap.
Qed.

Lemma indexed_exec (c : call) (self : ButtonHandler.t) :
  index_invariant self ∧ all_indexed self →
  index_invariant (fst (exec c self)) ∧ all_indexed (fst (exec c self)).
Proof.
  intros [Hinv Hall]. destruct c as [p|ps|p f g|f g|dr]; cbn [exec fst].
  - split.
    + eapply (index_invariant_append self _ (Button.new p)); eauto using registerButton_pinMap.
    + eapply (all_indexed_append self _ (Button.new p)); eauto using registerButton_pinMap.
  - rewrite registerButton_list_foldl. by apply index_invariant_foldl.
  - split.
    + eapply (index_invariant_append self _ (Button.new_with p f g));
        eauto using registerButton_with_pinMap.
    + eapply (all_indexed_append self _ (Button.new_with p f g));
        eauto using registerButton_with_pinMap.
  - done.
  - split; [by apply index_invariant_update | by apply all_indexed_update].
Qed.

Lemma indexed_construct (k : ctor) :
  index_invariant (construct k) ∧ all_indexed (construct k).
Proof.
  split.
  - intros p i. by destruct k.
  - intros b. destruct k; cbn; by rewrite elem_of_nil.
Qed.

Lemma indexed_run (k : ctor) (cs : list call) :
  index_invariant (fst (run cs (construct k))) ∧ all_indexed (fst (run cs (construct k))).
Proof.
  apply (run_preserves (λ s, index_invariant s ∧ all_indexed s)).
  - apply indexed_exec.
  - apply indexed_construct.
Qed.

(** ** Records and their pins *)

Lemma registerButton_list_buttons (ps : list byte) (self : ButtonHandler.t) :
  ButtonHandler.buttons (ButtonHandler.registerButton_list ps self)
  = ButtonHandler.buttons self ++ map Button.new ps.
Proof.
  rewrite registerButton_list_foldl. revert self.
  induction ps as [|p ps IH]; intros self; cbn [foldl map].
  - by rewrite app_nil_r.
  - rewrite IH, registerButton_buttons, <- app_assoc. done.
Qed.

(** A call that is no [update] appends to [buttons]: one record per pin
    it registers, each with [state = false]. *)
Lemma exec_appends (c : call) (self : ButtonHandler.t) :
  is_update c = false →
  ∃ tail, ButtonHandler.buttons (fst (exec c self)) = ButtonHandler.buttons self ++ tail
          ∧ map Button.pin tail = pins_of c
          ∧ Forall (λ b, Button.state b = false) tail.
Proof.
  destruct c as [p|ps|p f g|f g|dr]; intros Hc; try done; cbn [exec fst pins_of].
  - exists [Button.new p]. repeat split; [by constructor].
  - exists (map Button.new ps). rewrite registerButton_list_buttons.
    repeat split.
    + rewrite map_map. apply map_id.
    + apply Forall_forall. by intros b (p & -> & _)%list_elem_of_fmap.
  - exists [Button.new_with p f g]. repeat split; [by constructor].
  - exists []. by rewrite app_nil_r.
Qed.

Lemma exec_pins (c : call) (self : ButtonHandler.t) :
  map Button.pin (ButtonHandler.buttons (fst (exec c self)))
  = map Button.pin (ButtonHandler.buttons self) ++ pins_of c.
Proof.
  destruct (is_update c) eqn:Hc.
  - destruct c; try done. cbn [exec pins_of]. rewrite update_buttons, map_map, app_nil_r.
    apply map_ext. intros b. apply update_button_pin.
  - destruct (exec_appends c self Hc) as (tail & -> & <- & _). apply map_app.
Qed.

Lemma run_pins (cs : list call) (self : ButtonHandler.t) :
  map Button.pin (ButtonHandler.buttons (fst (run cs self)))
  = map Button.pin (ButtonHandler.buttons self) ++ registered_pins cs.
Proof.
  revert self. induction cs as [|c cs IH]; intros self.
  - cbn. by rewrite app_nil_r.
  - rewrite run_cons. cbn [fst]. rewrite IH, exec_pins, <- app_assoc. done.
Qed.

Lemma same_identity_trans (b1 b2 b3 : Button.t) :
  same_identity b1 b2 → same_identity b2 b3 → same_identity b1 b3.
Proof. unfold same_identity. intros (?&?&?&?) (?&?&?&?). repeat split; congruence. Qed.

(** A record keeps its position and its identity through every call, and
    its state too unless an [update] reads its pin at the other level. *)
Lemma exec_lookup (c : call) (self : ButtonHandler.t) (i : nat) (b : Button.t) :
  ButtonHandler.buttons self !! i = Some b →
  ∃ b', ButtonHandler.buttons (fst (exec c self)) !! i = Some b'
        ∧ same_identity b b'
        ∧ (reads_level (Button.pin b) (Button.state b) c → b' = b).
Proof.
  intros Hi. destruct (is_update c) eqn:Hc.
  - destruct c as [| | | |dr]; try done. cbn [exec reads_level].
    exists (fst (ButtonHandler.update_button dr self b)). split; [by apply update_lookup|].
    split.
    + destruct (update_button_handlers dr self b) as (?&?&?).
      repeat split; auto using update_button_pin.
    + intros H. by rewrite (update_button_same dr self b H).
  - destruct (exec_appends c self Hc) as (tail & -> & _).
    exists b. split; [|done]. rewrite lookup_app_l; [done|]. by eapply lookup_lt_Some.
Qed.

Lemma run_lookup (cs : list call) (self : ButtonHandler.t) (i : nat) (b : Button.t) :
  ButtonHandler.buttons self !! i = Some b →
  ∃ b', ButtonHandler.buttons (fst (run cs self)) !! i = Some b'
        ∧ same_identity b b'
        ∧ (Forall (reads_level (Button.pin b) (Button.state b)) cs → b' = b).
Proof.
  revert self b. induction cs as [|c cs IH]; intros self b Hi.
  - exists b. by cbn.
  - rewrite run_cons. cbn [fst].
    destruct (exec_lookup c self i b Hi) as (b1 & H1 & Hid1 & Hst1).
    destruct (IH _ _ H1) as (b2 & H2 & Hid2 & Hst2).
    exists b2. split; [done|]. split; [by eapply same_identity_trans|].
    intros [Hc Hcs]%Forall_cons. specialize (Hst1 Hc). subst b1. by apply Hst2.
Qed.

(** ** Reading with [getState] *)

Lemma getState_bound (p i : Z) (self : ButtonHandler.t) :
  ButtonHandler.pinMap self !! p = Some i →
  ButtonHandler.getState p self
  = (Button.state <$> ButtonHandler.vector_at (ButtonHandler.buttons self) i, self).
Proof.
  intros H. unfold ButtonHandler.getState, ButtonHandler.pinMap_subscript. by rewrite H.
Qed.

Lemma getState_unbound (p : Z) (self : ButtonHandler.t) :
  ButtonHandler.pinMap self !! p = None →
  ButtonHandler.getState p self
  = (Button.state <$> ButtonHandler.vector_at (ButtonHandler.buttons self) 0,
     ButtonHandler.pinMap_assign p 0 self).
Proof.
  intros H. unfold ButtonHandler.getState, ButtonHandler.pinMap_subscript. by rewrite H.
Qed.

(** Where the index is sound, [getState] on the pin of a record reads a
    record of that pin and changes nothing. *)
Lemma getState_record (self : ButtonHandler.t) (b : Button.t) :
  index_invariant self → all_indexed self →
  b ∈ ButtonHandler.buttons self →
  ∃ b', b' ∈ ButtonHandler.buttons self
        ∧ Button.pin b' = Button.pin b
        ∧ ButtonHandler.getState (int_of_byte (Button.pin b)) self
          = (Some (Button.state b'), self).
Proof.
  intros Hinv Hall Hb. destruct (Hall b Hb) as [i Hi].
  destruct (Hinv _ _ Hi) as (b' & Hb' & Hpin).
  exists b'. split; [|split].
  - apply vector_at_Some in Hb' as [_ Hb']. by eapply list_elem_of_lookup_2.
  - by apply int_of_byte_inj.
  - by rewrite (getState_bound _ _ _ Hi), Hb'.
Qed.

Lemma exec_states_false (c : call) (self : ButtonHandler.t) :
  is_update c = false →
  Forall (λ b, Button.state b = false) (ButtonHandler.buttons self) →
  Forall (λ b, Button.state b = false) (ButtonHandler.buttons (fst (exec c self))).
Proof.
  intros Hc Hs. destruct (exec_appends c self Hc) as (tail & -> & _ & Ht).
  by apply Forall_app.
Qed.

Lemma run_states_false (cs : list call) (self : ButtonHandler.t) :
  Forall (λ c, is_update c = false) cs →
  Forall (λ b, Button.state b = false) (ButtonHandler.buttons self) →
  Forall (λ b, Button.state b = false) (ButtonHandler.buttons (fst (run cs self))).
Proof.
  revert self. induction cs as [|c cs IH]; intros self Hcs Hs; [done|].
  apply Forall_cons in Hcs as [Hc Hcs]. rewrite run_cons. cbn [fst].
  by apply IH, exec_states_false.
Qed.

(** ** One pass of [update] *)

(** What one turn of the loop calls: nothing, or the calls of a transition
    to the level read. *)
Lemma update_button_events (digitalRead : byte → Z) (self : ButtonHandler.t) (b : Button.t) :
  let lvl := reads_high digitalRead (Button.pin b) in
  ButtonHandler.update_button digitalRead self b
  = if bool_decide (Button.state b = lvl) then (b, [])
    else (Button.set_state lvl b, transition_calls lvl self b).
Proof.
  cbv zeta. case_bool_decide as H.
  - by apply update_button_same.
  - apply update_button_changed; [done|]. by destruct (Button.state b), (reads_high _ _).
Qed.

(** After a pass every record holds the level read for its pin. *)
Lemma update_states (digitalRead : byte → Z) (self : ButtonHandler.t) (b : Button.t) :
  b ∈ ButtonHandler.buttons (fst (ButtonHandler.update digitalRead self)) →
  Button.state b = reads_high digitalRead (Button.pin b).
Proof.
  rewrite update_buttons. intros (b0 & -> & _)%list_elem_of_fmap.
  by rewrite update_button_state, update_button_pin.
Qed.

Lemma run_run (k : ctor) (cs1 cs2 : list call) :
  fst (run cs2 (fst (run cs1 (construct k)))) = fst (run (cs1 ++ cs2) (construct k)).
Proof. by rewrite run_app. Qed.

(** The handler of the [ButtonHandler] is only ever called with the pin of
    the record the loop is at. *)
Lemma update_button_any_arg (digitalRead : byte → Z) (self : ButtonHandler.t)
    (b : Button.t) (f : option pin_callback) (q : Z) :
  AnyPress f q ∈ snd (ButtonHandler.update_button digitalRead self b)
  ∨ AnyRelease f q ∈ snd (ButtonHandler.update_button digitalRead self b) →
  q = int_of_byte (Button.pin b).
Proof.
  rewrite update_button_events. cbv zeta. case_bool_decide; cbn [snd].
  - rewrite !elem_of_nil. tauto.
  - unfold transition_calls, button_call, any_call.
    destruct (reads_high _ _), (Button.hasHandlers b), (ButtonHandler.hasHandlers self);
      cbn; rewrite ?elem_of_cons, ?elem_of_nil; intuition congruence.
Qed.

Lemma elem_of_concat {A : Type} (x : A) (ls : list (list A)) :
  x ∈ concat ls ↔ ∃ l, l ∈ ls ∧ x ∈ l.
Proof.
  rewrite list_elem_of_In, in_concat. split.
  - intros (l & Hl & Hx). exists l. by rewrite !list_elem_of_In.
  - intros (l & Hl & Hx). exists l. by rewrite <- !list_elem_of_In.
Qed.

(** [update] looks at the board only through the pins of its records. *)
Lemma update_ext (d1 d2 : byte → Z) (self : ButtonHandler.t) :
  (∀ b, b ∈ ButtonHandler.buttons self → d1 (Button.pin b) = d2 (Button.pin b)) →
  ButtonHandler.update d1 self = ButtonHandler.update d2 self.
Proof.
  intros H. unfold ButtonHandler.update. rewrite !update_loop_map.
  assert (Hbody : ∀ b, In b (ButtonHandler.buttons self) →
            ButtonHandler.update_button d1 self b = ButtonHandler.update_button d2 self b).
  { intros b Hb%list_elem_of_In. unfold ButtonHandler.update_button. by rewrite (H b Hb). }
  rewrite (map_ext_in _ (λ b, fst (ButtonHandler.update_button d2 self b))),
          (map_ext_in (λ b, snd (ButtonHandler.update_button d1 self b))
                      (λ b, snd (ButtonHandler.update_button d2 self b)));
    [done | |]; intros b Hb; by rewrite (Hbody b Hb).
Qed.

Lemma run_same_reads (cs1 cs2 : list call) (pins : list byte) (self : ButtonHandler.t) :
  (∀ b, b ∈ ButtonHandler.buttons self → Button.pin b ∈ pins) →
  same_reads pins cs1 cs2 →
  run cs1 self = run cs2 self.
Proof.
  revert cs2 pins self.
  induction cs1 as [|c1 cs1 IH]; intros [|c2 cs2] pins self Hpins Hsame;
    try done; try (by destruct c1).
  assert (Hnext : ∀ c, ∀ b, b ∈ ButtonHandler.buttons (fst (exec c self)) →
            Button.pin b ∈ pins ++ pins_of c).
  { intros c b Hb. apply (list_elem_of_fmap_2 Button.pin) in Hb.
    rewrite exec_pins in Hb. apply elem_of_app in Hb as [Hb|Hb]; [|set_solver].
    apply list_elem_of_fmap in Hb as (b0 & -> & Hb0). apply elem_of_app. left. by apply Hpins. }
  rewrite !run_cons.
  destruct c1 as [p1|ps1|p1 f1 g1|f1 g1|d1], c2 as [p2|ps2|p2 f2 g2|f2 g2|d2];
    cbn [same_reads] in Hsame; destruct Hsame as [Hc Hrest]; try discriminate Hc;
    try (injection Hc as <-; by rewrite (IH cs2 _ _ (Hnext _) Hrest)).
  - injection Hc as <- <- <-. by rewrite (IH cs2 _ _ (Hnext _) Hrest).
  - injection Hc as <- <-. by rewrite (IH cs2 _ _ (Hnext _) Hrest).
  - cbn [exec]. rewrite (update_ext d1 d2 self) by (intros b Hb; apply Hc, Hpins, Hb).
    rewrite (IH cs2 pins); [done| |done].
    intros b Hb. specialize (Hnext (Update d2) b Hb). cbn in Hnext.
    by rewrite app_nil_r in Hnext.
Qed.

(** A call changes the index only at the pins it registers. *)
Lemma exec_pinMap_other (c : call) (self : ButtonHandler.t) (q : Z) :
  (∀ p, p ∈ pins_of c → int_of_byte p ≠ q) →
  ButtonHandler.pinMap (fst (exec c self)) !! q = ButtonHandler.pinMap self !! q.
Proof.
  intros Hq. destruct c as [p|ps|p f g|f g|dr]; cbn [exec fst].
  - rewrite registerButton_pinMap, lookup_insert_ne; [done|]. apply Hq. cbn. set_solver.
  - rewrite registerButton_list_foldl. cbn [pins_of] in Hq. revert self.
    induction ps as [|p ps IH]; intros self; [done|]. cbn [foldl].
    rewrite IH by (intros p' Hp'; apply Hq; set_solver).
    rewrite registerButton_pinMap, lookup_insert_ne; [done|]. apply Hq. set_solver.
  - rewrite registerButton_with_pinMap, lookup_insert_ne; [done|]. apply Hq. cbn. set_solver.
  - done.
  - by rewrite update_pinMap.
Qed.

Lemma run_pinMap_other (cs : list call) (self : ButtonHandler.t) (q : Z) :
  (∀ p, p ∈ registered_pins cs → int_of_byte p ≠ q) →
  ButtonHandler.pinMap (fst (run cs self)) !! q = ButtonHandler.pinMap self !! q.
Proof.
  revert self. induction cs as [|c cs IH]; intros self Hq; [done|].
  rewrite run_cons. cbn [fst]. unfold registered_pins in Hq. cbn [map concat] in Hq.
  rewrite IH, exec_pinMap_other; [done| |]; intros p Hp; apply Hq, elem_of_app;
    [by left | by right].
Qed.

(** Every record of a program's object has a pin the program registered. *)
Lemma run_pin_registered (k : ctor) (cs : list call) (b : Button.t) :
  b ∈ ButtonHandler.buttons (fst (run cs (construct k))) →
  Button.pin b ∈ registered_pins cs.
Proof.
  intros Hb%(list_elem_of_fmap_2 Button.pin). rewrite run_pins in Hb. by destruct k.
Qed.

(** ** No call through an unassigned pointer *)

Lemma registerButton_list_handlers (ps : list byte) (self : ButtonHandler.t) :
  ButtonHandler.hasHandlers (ButtonHandler.registerButton_list ps self)
  = ButtonHandler.hasHandlers self
  ∧ ButtonHandler.pressHandler (ButtonHandler.registerButton_list ps self)
    = ButtonHandler.pressHandler self
  ∧ ButtonHandler.releaseHandler (ButtonHandler.registerButton_list ps self)
    = ButtonHandler.releaseHandler self.
Proof.
  rewrite registerButton_list_foldl. revert self.
  induction ps as [|p ps IH]; intros self; [done|]. cbn [foldl].
  destruct (IH (ButtonHandler.registerButton p self)) as (-> & -> & ->). done.
Qed.

Lemma handlers_assigned_exec (c : call) (self : ButtonHandler.t) :
  handlers_assigned self → handlers_assigned (fst (exec c self)).
Proof.
  intros [Hself Hbs]. destruct (is_update c) eqn:Hc.
  - destruct c as [| | | |dr]; try done. cbn [exec]. split.
    + by rewrite update_hasHandlers, !(proj1 (update_handlers dr self)),
        !(proj2 (update_handlers dr self)).
    + rewrite update_buttons. apply Forall_fmap, (Forall_impl _ _ _ Hbs).
      intros b Hb. unfold button_assigned, compose.
      destruct (update_button_handlers dr self b) as (-> & -> & ->). apply Hb.
  - destruct (exec_appends c self Hc) as (tail & Hbs' & Hpins & _).
    assert (Htail : Forall button_assigned tail →
              Forall button_assigned (ButtonHandler.buttons (fst (exec c self)))).
    { intros Ht. rewrite Hbs'. by apply Forall_app. }
    destruct c as [p|ps|p f g|f g|dr]; try done; cbn [exec fst] in *.
    + split; [exact Hself|]. apply Htail.
      apply app_inv_head in Hbs' as <-. by repeat constructor.
    + split.
      * by destruct (registerButton_list_handlers ps self) as (-> & -> & ->).
      * apply Htail. rewrite registerButton_list_buttons in Hbs'.
        apply app_inv_head in Hbs' as <-. apply Forall_fmap, Forall_true. by intros p.
    + split; [exact Hself|]. apply Htail.
      apply app_inv_head in Hbs' as <-. repeat constructor; by eexists.
Qed.

Lemma handlers_assigned_run (k : ctor) (cs : list call) :
  handlers_assigned (fst (run cs (construct k))).
Proof.
  apply (run_preserves handlers_assigned).
  - apply handlers_assigned_exec.
  - destruct k; split; try done; constructor || (intros _; split; by eexists).
Qed.

(** Every call [update] makes in a program goes through a pointer that
    holds a function. *)
Lemma update_calls_assigned (k : ctor) (cs : list call) (digitalRead : byte → Z) (e : event) :
  e ∈ snd (ButtonHandler.update digitalRead (fst (run cs (construct k)))) →
  is_Some (called_through e).
Proof.
  destruct (handlers_assigned_run k cs) as [Hself Hbs].
  rewrite update_events. intros (seg & Hseg & He)%elem_of_concat.
  apply list_elem_of_fmap in Hseg as (b & -> & Hb).
  rewrite Forall_forall in Hbs. specialize (Hbs b Hb). unfold button_assigned in Hbs.
  rewrite update_button_events in He. cbv zeta in He.
  case_bool_decide; cbn [snd] in He; [by apply elem_of_nil in He|].
  unfold transition_calls, button_call, any_call in He.
  destruct (reads_high _ _), (Button.hasHandlers b), (ButtonHandler.hasHandlers _);
    cbn in He; rewrite ?elem_of_cons, ?elem_of_nil in He;
    intuition (subst e; cbn; tauto).
Qed.

(** ** The scenarios of the spec *)

(** Pins 2 and 3 without handlers, handlers for every pin registered
    afterwards, pin 2 goes high: one [update] calls the press handler once,
    with 2. *)
Example scenario_global_handlers :
  let self := fst (run [RegisterButtonList [Byte.x02; Byte.x03];
                        RegisterHandlers "anyDown" "anyUp"] (construct New)) in
  let '(self, evs) :=
    ButtonHandler.update (λ p, if Byte.eqb p Byte.x02 then HIGH else LOW) self in
  evs = [AnyPress (Some "anyDown") 2]
  ∧ fst (ButtonHandler.getState 2 self) = Some true
  ∧ fst (ButtonHandler.getState 3 self) = Some false.
Proof. repeat split. Qed.

(** Pin 5 with its own handlers goes high, then low, over two calls of
    [update]; a third call with nothing changed calls nothing. *)
Example scenario_press_release :
  let self := fst (run [RegisterButtonWith Byte.x05 "down5" "up5"] (construct New)) in
  let '(self1, evs1) := ButtonHandler.update (λ _, HIGH) self in
  let '(self2, evs2) := ButtonHandler.update (λ _, LOW) self1 in
  let '(self3, evs3) := ButtonHandler.update (λ _, LOW) self2 in
  evs1 = [ButtonPress (Some "down5")]
  ∧ fst (ButtonHandler.getState 5 self1) = Some true
  ∧ evs2 = [ButtonRelease (Some "up5")]
  ∧ fst (ButtonHandler.getState 5 self2) = Some false
  ∧ evs3 = [] ∧ self3 = self2.
Proof. repeat split. Qed.

(** [getState] with no record at all reads past the end of [buttons]. *)
Example scenario_getState_empty :
  ButtonHandler.getState 7 (construct New)
  = (None, ButtonHandler.pinMap_assign 7 0 ButtonHandler.new).
Proof. reflexivity. Qed.

(** * The properties of the spec *)

(** C3: after a sequence of registration calls on a fresh [ButtonHandler],
    whichever overloads of [registerButton] it uses and with or without
    [registerHandlers], and before any [update], [getState(P)] returns
    [false] for every pin [P] the sequence registered. *)
Theorem getState_false_before_update (k : ctor) (cs : list call) (P : byte) :
  Forall (λ c, is_update c = false) cs →
  P ∈ registered_pins cs →
  fst (ButtonHandler.getState (int_of_byte P) (fst (run cs (construct k)))) = Some false.
Proof.
  intros Hcs HP. set (self := fst (run cs (construct k))).
  destruct (indexed_run k cs) as [Hinv Hall]. fold self in Hinv, Hall.
  assert (Hpins : P ∈ map Button.pin (ButtonHandler.buttons self)).
  { unfold self. rewrite run_pins. destruct k; by cbn. }
  apply list_elem_of_fmap in Hpins as (b & -> & Hb).
  destruct (getState_record self b Hinv Hall Hb) as (b' & Hb' & _ & ->). cbn.
  assert (Hfalse : Forall (λ b, Button.state b = false) (ButtonHandler.buttons self)).
  { apply run_states_false; [done|]. destruct k; by cbn. }
  f_equal. by eapply Forall_forall in Hfalse.
Qed.

Lemma getState_false_before_update_witness :
  let cs := [RegisterButton Byte.x02; RegisterButtonList [Byte.x03; Byte.x04];
             RegisterHandlers "anyDown" "anyUp";
             RegisterButtonWith Byte.x05 "down5" "up5"; RegisterButton Byte.x03] in
  Forall (λ c, is_update c = false) cs
  ∧ Byte.x03 ∈ registered_pins cs
  ∧ fst (ButtonHandler.getState 3 (fst (run cs (construct New)))) = Some false.
Proof.
  cbv zeta.
  assert (H1 : Forall (λ c, is_update c = false)
                 [RegisterButton Byte.x02; RegisterButtonList [Byte.x03; Byte.x04];
                  RegisterHandlers "anyDown" "anyUp";
                  RegisterButtonWith Byte.x05 "down5" "up5"; RegisterButton Byte.x03])
    by (repeat constructor).
  assert (H2 : Byte.x03 ∈ registered_pins
                 [RegisterButton Byte.x02; RegisterButtonList [Byte.x03; Byte.x04];
                  RegisterHandlers "anyDown" "anyUp";
                  RegisterButtonWith Byte.x05 "down5" "up5"; RegisterButton Byte.x03])
    by (cbn; set_solver).
  split; [exact H1|]. split; [exact H2|].
  exact (getState_false_before_update New _ Byte.x03 H1 H2).
Defined.

(** C4: the index invariant (every pin bound in [pinMap] is bound to the
    position of a record that has this pin) holds after every sequence of
    [registerButton] (all overloads), [registerHandlers] and [update] calls
    on a fresh [ButtonHandler], whichever constructor made it. *)
Theorem index_invariant_holds (k : ctor) (cs : list call) :
  index_invariant (fst (run cs (construct k))).
Proof. apply indexed_run. Qed.

(** C8: the list overload of [registerButton] leaves the [ButtonHandler]
    exactly as the single-pin overload called on each element in order
    does. *)
Theorem registerButton_list_refines (pins : list byte) (self : ButtonHandler.t) :
  ButtonHandler.registerButton_list pins self = registerPins_spec pins self.
Proof. apply registerButton_list_foldl. Qed.

(** C1: take a registered record whose stored state is the opposite of
    [lvl], let any calls follow in which every [update] still reads its pin
    at the stored level, and then call [update] with the pin read at [lvl].
    This [update] calls, for this record and in this order, the record's own
    handler of the transition (if the record has handlers) and then the
    handler of the [ButtonHandler] with the pin as argument (if it has
    handlers); afterwards [getState] of the pin returns [lvl].  With
    [lvl = true] this is the press, with [lvl = false] the release. *)
Theorem update_fires_transition (k : ctor) (cs before : list call) (i : nat)
    (b : Button.t) (lvl : bool) (digitalRead : byte → Z) :
  let self := fst (run cs (construct k)) in
  ButtonHandler.buttons self !! i = Some b →
  Button.state b = negb lvl →
  Forall (reads_level (Button.pin b) (negb lvl)) before →
  reads_high digitalRead (Button.pin b) = lvl →
  let self1 := fst (run before self) in
  let self2 := fst (ButtonHandler.update digitalRead self1) in
  ButtonHandler.buttons self1 !! i = Some b
  ∧ snd (ButtonHandler.update digitalRead self1) = concat (update_segments digitalRead self1)
  ∧ update_segments digitalRead self1 !! i
    = Some ((if Button.hasHandlers b then [button_call lvl b] else [])
            ++ (if ButtonHandler.hasHandlers self1
                then [any_call lvl self1 (Button.pin b)] else []))
  ∧ fst (ButtonHandler.getState (int_of_byte (Button.pin b)) self2) = Some lvl.
Proof.
  intros self Hi Hst Hbefore Hread self1 self2.
  assert (Hi1 : ButtonHandler.buttons self1 !! i = Some b).
  { destruct (run_lookup before self i b Hi) as (b' & Hb' & _ & Hsame).
    rewrite Hst in Hsame. by rewrite <- (Hsame Hbefore). }
  split; [done|]. split; [apply update_events|]. split.
  - rewrite (update_segments_lookup _ _ _ _ Hi1).
    by rewrite (update_button_changed _ _ _ lvl Hread Hst).
  - assert (Hidx : index_invariant self2 ∧ all_indexed self2).
    { unfold self2, self1, self. rewrite run_run.
      apply (indexed_exec (Update digitalRead)), indexed_run. }
    destruct Hidx as [Hinv Hall].
    pose proof (update_lookup digitalRead self1 i b Hi1) as Hi2. fold self2 in Hi2.
    apply list_elem_of_lookup_2 in Hi2.
    destruct (getState_record self2 _ Hinv Hall Hi2) as (b' & Hb' & Hpin & Hget).
    rewrite update_button_pin in Hpin, Hget. rewrite Hget. cbn. f_equal.
    by rewrite (update_states digitalRead self1 b' Hb'), Hpin.
Qed.

Lemma update_fires_transition_witness :
  let cs := [RegisterButtonWith Byte.x05 "down5" "up5"; RegisterHandlers "anyDown" "anyUp"] in
  let before := [Update (λ _, LOW); RegisterButton Byte.x02] in
  let digitalRead := λ p : byte, if Byte.eqb p Byte.x05 then HIGH else LOW in
  let self1 := fst (run before (fst (run cs (construct New)))) in
  let self2 := fst (ButtonHandler.update digitalRead self1) in
  ButtonHandler.buttons self1 !! 0%nat = Some (Button.new_with Byte.x05 "down5" "up5")
  ∧ snd (ButtonHandler.update digitalRead self1) = concat (update_segments digitalRead self1)
  ∧ update_segments digitalRead self1 !! 0%nat
    = Some [ButtonPress (Some "down5"); AnyPress (Some "anyDown") 5]
  ∧ fst (ButtonHandler.getState 5 self2) = Some true.
Proof.
  cbv zeta.
  apply (update_fires_transition New
    [RegisterButtonWith Byte.x05 "down5" "up5"; RegisterHandlers "anyDown" "anyUp"]
    [Update (λ _, LOW); RegisterButton Byte.x02] 0
    (Button.new_with Byte.x05 "down5" "up5") true
    (λ p : byte, if Byte.eqb p Byte.x05 then HIGH else LOW)).
  - reflexivity.
  - reflexivity.
  - repeat constructor.
  - reflexivity.
Defined.

(** C6: in one call of [update], the calls made for one record never
    contain both the record's press handler and its release handler, nor
    both the press handler and the release handler of the
    [ButtonHandler]. *)
Theorem update_one_direction (digitalRead : byte → Z) (self : ButtonHandler.t) :
  snd (ButtonHandler.update digitalRead self) = concat (update_segments digitalRead self)
  ∧ length (update_segments digitalRead self) = length (ButtonHandler.buttons self)
  ∧ Forall (λ seg,
        existsb is_button_press seg && existsb is_button_release seg = false
        ∧ existsb is_any_press seg && existsb is_any_release seg = false)
      (update_segments digitalRead self).
Proof.
  split; [apply update_events|]. split; [apply length_map|].
  apply Forall_forall. intros seg (b & -> & _)%list_elem_of_fmap.
  rewrite update_button_events. cbv zeta. case_bool_decide; [done|].
  unfold transition_calls, button_call, any_call.
  by destruct (reads_high _ _), (Button.hasHandlers b), (ButtonHandler.hasHandlers self).
Qed.

(** C9: for every record and every call of [update], a handler of the
    record is called only if the record's [hasHandlers] is true and a
    handler of the [ButtonHandler] only if its [hasHandlers] is true; the
    record's state is set to the level read whatever the flags are, and on
    a transition the calls are exactly the ones whose flag is true. *)
Theorem update_presence_flags (digitalRead : byte → Z) (self : ButtonHandler.t)
    (i : nat) (b : Button.t) :
  ButtonHandler.buttons self !! i = Some b →
  let lvl := reads_high digitalRead (Button.pin b) in
  let seg := snd (ButtonHandler.update_button digitalRead self b) in
  let b' := fst (ButtonHandler.update_button digitalRead self b) in
  update_segments digitalRead self !! i = Some seg
  ∧ ButtonHandler.buttons (fst (ButtonHandler.update digitalRead self)) !! i = Some b'
  ∧ (Button.hasHandlers b = false → Forall (λ e, is_button_event e = false) seg)
  ∧ (ButtonHandler.hasHandlers self = false → Forall (λ e, is_any_event e = false) seg)
  ∧ Button.state b' = lvl
  ∧ (Button.state b ≠ lvl →
     seg = (if Button.hasHandlers b then [button_call lvl b] else [])
           ++ (if ButtonHandler.hasHandlers self
               then [any_call lvl self (Button.pin b)] else [])).
Proof.
  intros Hi lvl seg b'.
  split; [by apply update_segments_lookup|]. split; [by apply update_lookup|].
  subst seg b'. rewrite update_button_events. fold lvl.
  case_bool_decide as Hst; cbn [fst snd].
  - repeat split; done.
  - unfold transition_calls, button_call, any_call.
    repeat split; try done.
    + intros ->. destruct lvl, (ButtonHandler.hasHandlers self); repeat constructor.
    + intros ->. destruct lvl, (Button.hasHandlers b); repeat constructor.
Qed.

Lemma update_presence_flags_witness :
  let self := fst (run [RegisterButton Byte.x02; RegisterButtonWith Byte.x03 "down3" "up3"]
                       (construct (NewWith "anyDown" "anyUp"))) in
  let digitalRead := λ _ : byte, HIGH in
  update_segments digitalRead self !! 0%nat = Some [AnyPress (Some "anyDown") 2]
  ∧ Button.state <$> ButtonHandler.buttons (fst (ButtonHandler.update digitalRead self)) !! 0%nat
    = Some true.
Proof.
  cbv zeta.
  pose proof (update_presence_flags (λ _ : byte, HIGH)
    (fst (run [RegisterButton Byte.x02; RegisterButtonWith Byte.x03 "down3" "up3"]
              (construct (NewWith "anyDown" "anyUp"))))
    0 (Button.new Byte.x02) eq_refl) as (H1 & H2 & _).
  split; [exact H1|]. by rewrite H2.
Defined.

(** C2, as the code has it: for a registered pin [P], if the level read
    for [P] during a call of [update] equals the stored state of every
    record registered for [P] (of the one record, when [P] was registered
    once), the call makes no call for any record of [P], neither to a
    handler of the record nor to a handler of the [ButtonHandler] with [P]
    as argument, leaves these records as they are, and [getState(P)]
    returns the same value after the call as before it. *)
Theorem update_unchanged_pin (k : ctor) (cs : list call) (P : byte)
    (digitalRead : byte → Z) :
  let self := fst (run cs (construct k)) in
  let self' := fst (ButtonHandler.update digitalRead self) in
  P ∈ registered_pins cs →
  (∀ b, b ∈ ButtonHandler.buttons self → Button.pin b = P →
        Button.state b = reads_high digitalRead P) →
  snd (ButtonHandler.update digitalRead self) = concat (update_segments digitalRead self)
  ∧ (∀ i b, ButtonHandler.buttons self !! i = Some b → Button.pin b = P →
       update_segments digitalRead self !! i = Some []
       ∧ ButtonHandler.buttons self' !! i = Some b)
  ∧ (∀ f, (AnyPress f (int_of_byte P) ∉ snd (ButtonHandler.update digitalRead self))
          ∧ (AnyRelease f (int_of_byte P) ∉ snd (ButtonHandler.update digitalRead self)))
  ∧ fst (ButtonHandler.getState (int_of_byte P) self')
    = fst (ButtonHandler.getState (int_of_byte P) self)
  ∧ fst (ButtonHandler.getState (int_of_byte P) self)
    = Some (reads_high digitalRead P).
Proof.
  intros self self' HP Hsame.
  assert (Hbody : ∀ b, b ∈ ButtonHandler.buttons self → Button.pin b = P →
            ButtonHandler.update_button digitalRead self b = (b, [])).
  { intros b Hb Hpin. apply update_button_same. rewrite Hpin. symmetry. by apply Hsame. }
  split; [apply update_events|]. split; [|split].
  - intros i b Hi Hpin. pose proof (list_elem_of_lookup_2 _ _ _ Hi) as Hb.
    unfold self'. rewrite (update_segments_lookup _ _ _ _ Hi), (update_lookup _ _ _ _ Hi).
    by rewrite (Hbody b Hb Hpin).
  - intros f. rewrite update_events.
    assert (Hno : ∀ e, (e = AnyPress f (int_of_byte P) ∨ e = AnyRelease f (int_of_byte P)) →
              e ∉ concat (update_segments digitalRead self)).
    { intros e He (seg & Hseg & Hin)%elem_of_concat.
      apply list_elem_of_fmap in Hseg as (b & -> & Hb).
      assert (Hpin : Button.pin b = P).
      { apply int_of_byte_inj. symmetry.
        apply (update_button_any_arg digitalRead self b f). destruct He as [<-| <-]; auto. }
      rewrite (Hbody b Hb Hpin) in Hin. by apply elem_of_nil in Hin. }
    split; apply Hno; auto.
  - destruct (indexed_run k cs) as [Hinv Hall]. fold self in Hinv, Hall.
    assert (Hpins : P ∈ map Button.pin (ButtonHandler.buttons self)).
    { unfold self. rewrite run_pins. destruct k; by cbn. }
    apply list_elem_of_fmap in Hpins as (b & -> & Hb).
    destruct (Hall b Hb) as [j Hj]. destruct (Hinv _ _ Hj) as (b1 & Hb1 & Hpin1).
    apply int_of_byte_inj in Hpin1.
    assert (Hin1 : b1 ∈ ButtonHandler.buttons self).
    { apply vector_at_Some in Hb1 as [_ Hb1]. by eapply list_elem_of_lookup_2. }
    rewrite (getState_bound _ j self Hj), Hb1.
    rewrite (getState_bound _ j self'); [|by unfold self'; rewrite update_pinMap].
    unfold self'. rewrite update_buttons, vector_at_map, Hb1. cbn.
    rewrite (Hbody b1 Hin1 Hpin1). cbn. split; [done|]. f_equal. by apply Hsame.
Qed.

Lemma update_unchanged_pin_witness :
  let cs := [RegisterButtonWith Byte.x02 "down2" "up2"; RegisterButton Byte.x03;
             Update (λ p : byte, if Byte.eqb p Byte.x02 then HIGH else LOW)] in
  let digitalRead := λ _ : byte, HIGH in
  let self := fst (run cs (construct (NewWith "anyDown" "anyUp"))) in
  snd (ButtonHandler.update digitalRead self) = [AnyPress (Some "anyDown") 3]
  ∧ fst (ButtonHandler.getState 2 (fst (ButtonHandler.update digitalRead self)))
    = Some true.
Proof.
  cbv zeta.
  pose proof (update_unchanged_pin (NewWith "anyDown" "anyUp")
    [RegisterButtonWith Byte.x02 "down2" "up2"; RegisterButton Byte.x03;
     Update (λ p : byte, if Byte.eqb p Byte.x02 then HIGH else LOW)]
    Byte.x02 (λ _ : byte, HIGH)) as H.
  cbv zeta in H. destruct H as (_ & _ & _ & H1 & H2).
  - cbn. set_solver.
  - intros b Hb%list_elem_of_In Hpin. cbn in Hb.
    destruct Hb as [<-|[<-|[]]]; [reflexivity | discriminate Hpin].
  - split; [reflexivity|]. exact (eq_trans H1 H2).
Defined.

(** C2 as stated fails where a pin was registered twice: pin 5 is
    registered with handlers and pressed, then registered again.
    [getState(5)] now reads the new record, [false], and the next [update]
    reads pin 5 low, the stored state; yet the release handler of the first
    record and the release handler of the [ButtonHandler] are called. *)
Lemma update_unchanged_pin_counterexample :
  let cs := [RegisterButtonWith Byte.x05 "down5" "up5"; Update (λ _, HIGH);
             RegisterButton Byte.x05] in
  let self := fst (run cs (construct (NewWith "anyDown" "anyUp"))) in
  let digitalRead := λ _ : byte, LOW in
  Byte.x05 ∈ registered_pins cs
  ∧ fst (ButtonHandler.getState 5 self) = Some (reads_high digitalRead Byte.x05)
  ∧ snd (ButtonHandler.update digitalRead self)
    = [ButtonRelease (Some "up5"); AnyRelease (Some "anyUp") 5]
  ∧ fst (ButtonHandler.getState 5 (fst (ButtonHandler.update digitalRead self)))
    = Some false.
Proof.
  cbv zeta. split; [cbn; set_solver|]. repeat split.
Qed.


(** C7: two runs that start from the same constructor, make the same calls
    and get the same levels from [digitalRead] for the pins [update] reads
    (the pins registered by then) make the same handler calls, with the same
    arguments and in the same order, and end in the same [ButtonHandler]. *)
Theorem run_deterministic (k : ctor) (cs1 cs2 : list call) :
  same_reads [] cs1 cs2 →
  run cs1 (construct k) = run cs2 (construct k).
Proof.
  apply run_same_reads. intros b Hb. destruct k; cbn in Hb; by apply elem_of_nil in Hb.
Qed.

Lemma run_deterministic_witness :
  let regs := [RegisterButtonWith Byte.x02 "down2" "up2"; RegisterHandlers "anyDown" "anyUp"] in
  let board1 := λ p : byte, if Byte.eqb p Byte.x02 then HIGH else LOW in
  let board2 := λ _ : byte, HIGH in
  run (regs ++ [Update board1; Update (λ _, LOW)]) (construct New)
  = run (regs ++ [Update board2; Update (λ _, LOW)]) (construct New).
Proof.
  cbv zeta. apply run_deterministic. cbn.
  split; [reflexivity|]. split; [reflexivity|]. split.
  - intros p Hp. apply list_elem_of_singleton in Hp. by subst p.
  - split; [done | exact I].
Defined.

(** C10: on a pin that was never registered, [getState] adds the entry
    [pin -> 0] to [pinMap], which had none for it, and changes nothing
    else; the record at position 0, if there is one, has another pin, so
    the index invariant fails at the new entry; the value returned is the
    state of the first registered record, and with no record the read is
    past the end of [buttons] ([None]). *)
Theorem getState_unregistered (k : ctor) (cs : list call) (q : Z) :
  let self := fst (run cs (construct k)) in
  (∀ p, p ∈ registered_pins cs → int_of_byte p ≠ q) →
  let r := fst (ButtonHandler.getState q self) in
  let self' := snd (ButtonHandler.getState q self) in
  ButtonHandler.pinMap self !! q = None
  ∧ self' = ButtonHandler.pinMap_assign q 0 self
  ∧ ButtonHandler.pinMap self' !! q = Some 0
  ∧ ¬ (∃ b, ButtonHandler.vector_at (ButtonHandler.buttons self') 0 = Some b
            ∧ int_of_byte (Button.pin b) = q)
  ∧ ¬ index_invariant self'
  ∧ map Button.pin (ButtonHandler.buttons self) = registered_pins cs
  ∧ r = match ButtonHandler.buttons self with
        | first :: _ => Some (Button.state first)
        | [] => None
        end.
Proof.
  intros self Hq r self'.
  assert (Hother : ∀ b, b ∈ ButtonHandler.buttons self → int_of_byte (Button.pin b) ≠ q).
  { intros b Hb. by apply Hq, (run_pin_registered k cs). }
  assert (Hnone : ButtonHandler.pinMap self !! q = None).
  { destruct (ButtonHandler.pinMap self !! q) as [i|] eqn:Hi; [|done].
    destruct (proj1 (indexed_run k cs) q i Hi) as (b & Hb & Hpin).
    apply vector_at_Some in Hb as [_ Hb]. apply list_elem_of_lookup_2 in Hb.
    by destruct (Hother b Hb). }
  assert (Hno0 : ¬ (∃ b, ButtonHandler.vector_at (ButtonHandler.buttons self) 0 = Some b
                         ∧ int_of_byte (Button.pin b) = q)).
  { intros (b & Hb & Hpin). apply vector_at_Some in Hb as [_ Hb].
    apply list_elem_of_lookup_2 in Hb. by destruct (Hother b Hb). }
  subst r self'. rewrite (getState_unbound q self Hnone). cbn [fst snd].
  split; [done|]. split; [done|]. split; [apply lookup_insert_eq|]. split; [done|].
  split; [|split].
  - intros Hinv. apply Hno0. apply (Hinv q 0). apply lookup_insert_eq.
  - unfold self. rewrite run_pins. by destruct k.
  - by destruct (ButtonHandler.buttons self).
Qed.

Lemma getState_unregistered_witness :
  let cs := [RegisterButton Byte.x02; Update (λ _, HIGH); RegisterButton Byte.x03] in
  let self := fst (run cs (construct New)) in
  ButtonHandler.pinMap self !! 7 = None
  ∧ ButtonHandler.pinMap (snd (ButtonHandler.getState 7 self)) !! 7 = Some 0
  ∧ ¬ index_invariant (snd (ButtonHandler.getState 7 self))
  ∧ fst (ButtonHandler.getState 7 self) = Some true.
Proof.
  cbv zeta.
  pose proof (getState_unregistered New
    [RegisterButton Byte.x02; Update (λ _, HIGH); RegisterButton Byte.x03] 7) as H.
  cbv zeta in H. destruct H as (H1 & _ & H2 & _ & H3 & _ & H4).
  - intros p Hp%list_elem_of_In. cbn in Hp. destruct Hp as [<-|[<-|[]]]; discriminate.
  - split; [exact H1|]. split; [exact H2|]. split; [exact H3|exact H4].
Defined.

(** C5: let [b] be the record at position [i] and let a single-pin
    [registerButton] (with or without handlers) register the pin [P] of [b]
    again.  The call appends a second record for [P] at the new last
    position [n] and rebinds [P] to [n] in [pinMap].  Whatever calls follow,
    the old record stays at position [i] with its pin and handlers and the
    new one at [n]; [getState(P)] reads the record at [n] as long as [P] is
    not registered a third time; and every [update] runs its loop body on
    the old record, so that a read of [P] at a level other than its stored
    state calls its own handler (if it has handlers) and then the handler
    of the [ButtonHandler] (if present). *)
Theorem reregistration_keeps_old_record (k : ctor) (cs : list call) (i : nat)
    (b : Button.t) (c : call) (nb : Button.t) :
  let self := fst (run cs (construct k)) in
  ButtonHandler.buttons self !! i = Some b →
  record_of c = Some nb →
  Button.pin nb = Button.pin b →
  let P := Button.pin b in
  let n := length (ButtonHandler.buttons self) in
  let self' := fst (exec c self) in
  (i < n)%nat
  ∧ ButtonHandler.buttons self' = ButtonHandler.buttons self ++ [nb]
  ∧ ButtonHandler.pinMap self' = <[int_of_byte P := Z.of_nat n]> (ButtonHandler.pinMap self)
  ∧ ∀ (later : list call) (digitalRead : byte → Z),
      let self'' := fst (run later self') in
      let lvl := reads_high digitalRead P in
      ∃ b'' nb'',
        ButtonHandler.buttons self'' !! i = Some b'' ∧ same_identity b b''
        ∧ ButtonHandler.buttons self'' !! n = Some nb'' ∧ same_identity nb nb''
        ∧ ((∀ p, p ∈ registered_pins later → p ≠ P) →
           fst (ButtonHandler.getState (int_of_byte P) self'') = Some (Button.state nb''))
        ∧ snd (ButtonHandler.update digitalRead self'')
          = concat (update_segments digitalRead self'')
        ∧ update_segments digitalRead self'' !! i
          = Some (snd (ButtonHandler.update_button digitalRead self'' b''))
        ∧ (Button.state b'' ≠ lvl →
           snd (ButtonHandler.update_button digitalRead self'' b'')
           = (if Button.hasHandlers b then [button_call lvl b] else [])
             ++ (if ButtonHandler.hasHandlers self''
                 then [any_call lvl self'' P] else [])).
Proof.
  intros self Hi Hc Hpin P n self'.
  assert (Hlt : (i < n)%nat) by (by eapply lookup_lt_Some).
  assert (Hreg : ButtonHandler.buttons self' = ButtonHandler.buttons self ++ [nb]
                 ∧ ButtonHandler.pinMap self'
                   = <[int_of_byte P := Z.of_nat n]> (ButtonHandler.pinMap self)).
  { subst self' P n. rewrite <- Hpin.
    destruct c as [p|ps|p f g|f g|dr]; try discriminate Hc; injection Hc as <-;
      cbn [exec fst].
    - split; [apply registerButton_buttons | apply registerButton_pinMap].
    - split; [apply registerButton_with_buttons | apply registerButton_with_pinMap]. }
  destruct Hreg as [Hbs Hmap]. split; [done|]. split; [done|]. split; [done|].
  intros later digitalRead self'' lvl.
  assert (Hi' : ButtonHandler.buttons self' !! i = Some b).
  { rewrite Hbs, lookup_app_l; done. }
  assert (Hn' : ButtonHandler.buttons self' !! n = Some nb).
  { rewrite Hbs. by apply list_lookup_middle. }
  destruct (run_lookup later self' i b Hi') as (b'' & Hb'' & Hid & _).
  destruct (run_lookup later self' n nb Hn') as (nb'' & Hnb'' & Hnid & _).
  exists b'', nb''. repeat split; try done; try apply Hid; try apply Hnid.
  - intros Hlater.
    assert (Hbound : ButtonHandler.pinMap self'' !! int_of_byte P = Some (Z.of_nat n)).
    { unfold self''. rewrite run_pinMap_other.
      - rewrite Hmap. apply lookup_insert_eq.
      - intros p Hp E. apply int_of_byte_inj in E. by apply (Hlater p). }
    rewrite (getState_bound _ _ _ Hbound), vector_at_nat. unfold self''. by rewrite Hnb''.
  - apply update_events.
  - by apply update_segments_lookup.
  - intros Hst. destruct Hid as (Hp & Hh & Hpress & Hrel).
    rewrite update_button_events. cbv zeta. rewrite Hp. fold P lvl.
    rewrite bool_decide_eq_false_2 by done. cbn [snd].
    unfold transition_calls, button_call, any_call. by rewrite Hp, Hh, Hpress, Hrel.
Qed.

Lemma reregistration_keeps_old_record_witness :
  let cs := [RegisterButtonWith Byte.x05 "down5" "up5"] in
  let self' := fst (run (cs ++ [RegisterButton Byte.x05]) (construct (NewWith "anyDown" "anyUp"))) in
  let digitalRead := λ _ : byte, HIGH in
  ButtonHandler.buttons self'
  = [Button.new_with Byte.x05 "down5" "up5"; Button.new Byte.x05]
  ∧ ButtonHandler.pinMap self' !! 5 = Some 1
  ∧ fst (ButtonHandler.getState 5 self') = Some false
  ∧ update_segments digitalRead self' !! 0%nat
    = Some [ButtonPress (Some "down5"); AnyPress (Some "anyDown") 5].
Proof.
  cbv zeta.
  pose proof (reregistration_keeps_old_record (NewWith "anyDown" "anyUp")
    [RegisterButtonWith Byte.x05 "down5" "up5"] 0
    (Button.new_with Byte.x05 "down5" "up5") (RegisterButton Byte.x05)
    (Button.new Byte.x05) eq_refl eq_refl eq_refl) as H.
  cbv zeta in H. destruct H as (_ & Hbs & Hmap & Hlater).
  destruct (Hlater [] (λ _ : byte, HIGH)) as (b'' & nb'' & Hb & _ & Hnb & _ & Hget & _ & Hseg & _).
  injection Hb as <-. injection Hnb as <-.
  split; [exact Hbs|]. split; [reflexivity|]. split.
  - apply Hget. intros p Hp. by apply elem_of_nil in Hp.
  - refine (eq_trans Hseg _). reflexivity.
Defined.

(** * Further properties of the code *)

(** ** Helpers *)

Lemma update_events_assigned (digitalRead : byte → Z) (self : ButtonHandler.t) :
  handlers_assigned self →
  Forall (λ e, is_Some (called_through e)) (snd (ButtonHandler.update digitalRead self)).
Proof.
  intros [Hself Hbs]. apply Forall_forall. intros e.
  rewrite update_events. intros (seg & Hseg & He)%elem_of_concat.
  apply list_elem_of_fmap in Hseg as (b & -> & Hb).
  rewrite Forall_forall in Hbs. specialize (Hbs b Hb). unfold button_assigned in Hbs.
  rewrite update_button_events in He. cbv zeta in He.
  case_bool_decide; cbn [snd] in He; [by apply elem_of_nil in He|].
  unfold transition_calls, button_call, any_call in He.
  destruct (reads_high _ _), (Button.hasHandlers b), (ButtonHandler.hasHandlers _);
    cbn in He; rewrite ?elem_of_cons, ?elem_of_nil in He;
    intuition (subst e; cbn; tauto).
Qed.

(** A property of the events that every call of a kind [C] establishes,
    from objects that satisfy [I], holds of all events of a program of such
    calls. *)
Lemma run_events (C : call → Prop) (I : ButtonHandler.t → Prop) (Q : event → Prop) :
  (∀ c self, C c → I self → I (fst (exec c self)) ∧ Forall Q (snd (exec c self))) →
  ∀ cs self, Forall C cs → I self → Forall Q (snd (run cs self)).
Proof.
  intros Hstep cs. induction cs as [|c cs IH]; intros self Hcs HI; [by constructor|].
  apply Forall_cons in Hcs as [Hc Hcs].
  rewrite run_cons. cbn [snd]. destruct (Hstep c self Hc HI) as [HI' HQ].
  apply Forall_app. split; [done | by apply IH].
Qed.

Lemma set_state_same (b : Button.t) : Button.set_state (Button.state b) b = b.
Proof. by destruct b. Qed.

Lemma update_button_set_state (digitalRead : byte → Z) (self : ButtonHandler.t)
    (b : Button.t) :
  fst (ButtonHandler.update_button digitalRead self b)
  = Button.set_state (reads_high digitalRead (Button.pin b)) b.
Proof.
  rewrite update_button_events. cbv zeta. case_bool_decide as H; [|done].
  cbn [fst]. by rewrite <- H, set_state_same.
Qed.

(** Where every record already holds the level read, a pass is the
    identity and calls nothing. *)
Lemma update_settled (digitalRead : byte → Z) (self : ButtonHandler.t) :
  (∀ b, b ∈ ButtonHandler.buttons self →
        Button.state b = reads_high digitalRead (Button.pin b)) →
  ButtonHandler.update digitalRead self = (self, []).
Proof.
  intros Hs. unfold ButtonHandler.update. rewrite update_loop_map.
  assert (Hbody : ∀ b, In b (ButtonHandler.buttons self) →
            ButtonHandler.update_button digitalRead self b = (b, [])).
  { intros b Hb%list_elem_of_In. apply update_button_same. symmetry. by apply Hs. }
  rewrite (map_ext_in _ id), (map_ext_in (λ b, snd _) (λ _, []));
    [| intros b Hb; by rewrite (Hbody b Hb) ..].
  rewrite map_id. f_equal; [by destruct self|].
  clear. induction (ButtonHandler.buttons self) as [|b bs IH]; [done|]. apply IH.
Qed.

Lemma not_update_reads_level (p : byte) (lvl : bool) (cs : list call) :
  Forall (λ c, is_update c = false) cs → Forall (reads_level p lvl) cs.
Proof. intros H. eapply Forall_impl; [exact H|]. by intros [| | | |dr]. Qed.

(** ** What [update] calls and changes *)

(** X1: no call through an unassigned pointer.  In every program, whichever
    constructors made the [ButtonHandler] and its records, each handler
    call of each [update] goes through a pointer that was assigned a
    function: [hasHandlers] guards exactly the pointers the constructors
    leave unset. *)
Theorem calls_only_assigned_handlers (k : ctor) (cs : list call) :
  Forall (λ e, is_Some (called_through e)) (snd (run cs (construct k))).
Proof.
  apply (run_events (λ _, True) handlers_assigned).
  - intros c self _ HI. split; [by apply handlers_assigned_exec|].
    destruct c as [| | | |dr]; try by constructor.
    by apply update_events_assigned.
  - by apply Forall_true.
  - destruct k; split; try done; constructor || (intros _; split; by eexists).
Qed.

(** X2: [update] changes nothing but the [state] fields: [pinMap], the
    handlers and flags of the [ButtonHandler], and the number, order, pins,
    handlers and flags of the records stay, and each record gets the level
    read for its pin. *)
Theorem update_only_sets_states (digitalRead : byte → Z) (self : ButtonHandler.t) :
  fst (ButtonHandler.update digitalRead self)
  = {| ButtonHandler.buttons :=
         map (λ b, Button.set_state (reads_high digitalRead (Button.pin b)) b)
             (ButtonHandler.buttons self);
       ButtonHandler.pinMap := ButtonHandler.pinMap self;
       ButtonHandler.pressHandler := ButtonHandler.pressHandler self;
       ButtonHandler.releaseHandler := ButtonHandler.releaseHandler self;
       ButtonHandler.hasHandlers := ButtonHandler.hasHandlers self |}.
Proof.
  unfold ButtonHandler.update. rewrite update_loop_map. cbn [fst]. f_equal.
  apply map_ext. intros b. apply (update_button_set_state digitalRead self b).
Qed.

(** X3: a second [update] that reads the same levels as the one before it
    calls no handler and leaves the [ButtonHandler] as it is. *)
Theorem update_twice (digitalRead : byte → Z) (self : ButtonHandler.t) :
  ButtonHandler.update digitalRead (fst (ButtonHandler.update digitalRead self))
  = (fst (ButtonHandler.update digitalRead self), []).
Proof. apply update_settled. intros b Hb. by apply (update_states digitalRead self). Qed.

(** X4: handlers or buttons registered after an [update] do not replay it.
    If only registration calls ([registerButton], [registerHandlers]) lie
    between two [update]s that read the same levels, the second one makes
    no call for any record the first one saw. *)
Theorem update_does_not_replay (digitalRead : byte → Z) (self : ButtonHandler.t)
    (mid : list call) (i : nat) :
  Forall (λ c, is_update c = false) mid →
  (i < length (ButtonHandler.buttons self))%nat →
  update_segments digitalRead
    (fst (run mid (fst (ButtonHandler.update digitalRead self)))) !! i = Some [].
Proof.
  intros Hmid Hi. apply lookup_lt_is_Some_2 in Hi as [b Hb].
  pose proof (update_lookup digitalRead self i b Hb) as Hb1.
  set (b1 := fst (ButtonHandler.update_button digitalRead self b)) in *.
  destruct (run_lookup mid _ i b1 Hb1) as (b' & Hb' & _ & Hsame).
  rewrite (Hsame (not_update_reads_level _ _ mid Hmid)) in Hb'.
  rewrite (update_segments_lookup _ _ _ _ Hb').
  rewrite update_button_same; [done|].
  symmetry. apply (update_states digitalRead self). by eapply list_elem_of_lookup_2.
Qed.

Lemma update_does_not_replay_witness :
  let self := fst (run [RegisterButton Byte.x02] (construct New)) in
  let mid := [RegisterHandlers "anyDown" "anyUp"; RegisterButton Byte.x03] in
  update_segments (λ _, HIGH)
    (fst (run mid (fst (ButtonHandler.update (λ _, HIGH) self)))) !! 0%nat = Some [].
Proof.
  cbv zeta. apply update_does_not_replay.
  - repeat constructor.
  - cbn. lia.
Defined.

Lemma update_fst (digitalRead : byte → Z) (self : ButtonHandler.t) :
  fst (ButtonHandler.update digitalRead self)
  = {| ButtonHandler.buttons :=
         map (λ b, Button.set_state (reads_high digitalRead (Button.pin b)) b)
             (ButtonHandler.buttons self);
       ButtonHandler.pinMap := ButtonHandler.pinMap self;
       ButtonHandler.pressHandler := ButtonHandler.pressHandler self;
       ButtonHandler.releaseHandler := ButtonHandler.releaseHandler self;
       ButtonHandler.hasHandlers := ButtonHandler.hasHandlers self |}.
Proof.
  unfold ButtonHandler.update. rewrite update_loop_map. cbn [fst]. f_equal.
  apply map_ext. intros b. apply (update_button_set_state digitalRead self b).
Qed.

Lemma changed_spec (digitalRead : byte → Z) (b : Button.t) :
  changed digitalRead b
  = negb (bool_decide (Button.state b = reads_high digitalRead (Button.pin b))).
Proof.
  unfold changed. case_bool_decide as H.
  - by rewrite H, Bool.eqb_reflx.
  - by destruct (reads_high _ _), (Button.state b).
Qed.

(** X5: the handler calls of one [update], counted exactly.  The calls to
    handlers of records are one per record that has handlers and whose level
    changed, in the order of [buttons]; the calls to the handlers of the
    [ButtonHandler] are one per record whose level changed, in the same
    order and with the record's pin, or none at all if it has no
    handlers. *)
Theorem update_calls_once_per_change (digitalRead : byte → Z) (self : ButtonHandler.t) :
  let evs := snd (ButtonHandler.update digitalRead self) in
  List.filter is_button_event evs
  = map (λ b, button_call (reads_high digitalRead (Button.pin b)) b)
        (List.filter (λ b, changed digitalRead b && Button.hasHandlers b)
                     (ButtonHandler.buttons self))
  ∧ List.filter is_any_event evs
    = if ButtonHandler.hasHandlers self
      then map (λ b, any_call (reads_high digitalRead (Button.pin b)) self (Button.pin b))
               (List.filter (changed digitalRead) (ButtonHandler.buttons self))
      else [].
Proof.
  cbv zeta. rewrite update_events. unfold update_segments.
  induction (ButtonHandler.buttons self) as [|b bs [IH1 IH2]].
  - cbn. by destruct (ButtonHandler.hasHandlers self).
  - cbn [map concat List.filter]. rewrite !List.filter_app, IH1, IH2.
    rewrite changed_spec, update_button_events. cbv zeta.
    case_bool_decide as Hst; cbn [snd negb andb].
    + split; [done|]. by destruct (ButtonHandler.hasHandlers self).
    + unfold transition_calls, button_call, any_call.
      destruct (reads_high digitalRead (Button.pin b)) eqn:Hlvl,
        (Button.hasHandlers b), (ButtonHandler.hasHandlers self);
        cbn; rewrite ?Hlvl; split; reflexivity.
Qed.

(** ** Registration *)

(** X6: [buttons] is a log of the registrations.  After any program the
    pins of the records, in the order of [buttons], are the pins registered,
    in the order of registration: no call removes, merges or reorders
    records, and a pin registered twice has two records. *)
Theorem records_follow_registrations (k : ctor) (cs : list call) :
  map Button.pin (ButtonHandler.buttons (fst (run cs (construct k)))) = registered_pins cs.
Proof. rewrite run_pins. by destruct k. Qed.

Lemma exec_registerHandlers (f g : pin_callback) (c : call) (self : ButtonHandler.t) :
  is_registerHandlers c = false →
  fst (exec c (ButtonHandler.registerHandlers f g self))
  = ButtonHandler.registerHandlers f g (fst (exec c self)).
Proof.
  intros Hc. destruct c as [p|ps|p f' g'|f' g'|dr]; try done; cbn [exec fst].
  - rewrite !registerButton_list_foldl. revert self.
    induction ps as [|p ps IH]; intros self; [done|]. cbn [foldl]. by rewrite <- IH.
  - by rewrite !update_fst.
Qed.

(** X7: handlers for all pins may be given to the constructor or registered
    later, with the same result for the object.  With no other
    [registerHandlers] in between, any calls made on a [ButtonHandler] built
    with handlers leave the object that the same calls, followed by
    [registerHandlers] with these handlers, leave on one built without. *)
Theorem handlers_at_construction_or_later (f g : pin_callback) (cs : list call) :
  Forall (λ c, is_registerHandlers c = false) cs →
  fst (run cs (construct (NewWith f g)))
  = fst (run (cs ++ [RegisterHandlers f g]) (construct New)).
Proof.
  intros Hcs. rewrite run_app. cbn [fst run exec].
  change (construct (NewWith f g)) with (ButtonHandler.registerHandlers f g (construct New)).
  generalize (construct New). induction cs as [|c cs IH]; intros self; [done|].
  apply Forall_cons in Hcs as [Hc Hcs]. rewrite !run_cons. cbn [fst].
  by rewrite (exec_registerHandlers f g c self Hc), (IH Hcs).
Qed.

Lemma handlers_at_construction_or_later_witness :
  let cs := [RegisterButtonWith Byte.x05 "down5" "up5"; Update (λ _, HIGH);
             RegisterButtonList [Byte.x02; Byte.x05]] in
  fst (run cs (construct (NewWith "anyDown" "anyUp")))
  = fst (run (cs ++ [RegisterHandlers "anyDown" "anyUp"]) (construct New)).
Proof.
  cbv zeta. apply handlers_at_construction_or_later. repeat constructor.
Defined.

(** X8: the last [registerHandlers] decides.  After [registerHandlers(f, g)]
    and until the next [registerHandlers], every call for a press that is
    not a record's own goes to [f] and every such call for a release to
    [g], whatever handlers the constructor or an earlier [registerHandlers]
    had set. *)
Theorem last_registerHandlers_wins (f g : pin_callback) (cs : list call)
    (self : ButtonHandler.t) :
  Forall (λ c, is_registerHandlers c = false) cs →
  Forall (λ e, match e with
               | AnyPress h _ => h = Some f
               | AnyRelease h _ => h = Some g
               | _ => True
               end)
    (snd (run cs (ButtonHandler.registerHandlers f g self))).
Proof.
  intros Hcs.
  apply (run_events (λ c, is_registerHandlers c = false)
           (λ s, ButtonHandler.pressHandler s = Some f
                 ∧ ButtonHandler.releaseHandler s = Some g)); [|done|done].
  clear. intros c s Hc [Hf Hg]. split.
  - destruct c as [p|ps|p f' g'|f' g'|dr]; try done; cbn [exec fst].
    + by destruct (registerButton_list_handlers ps s) as (_ & -> & ->).
    + by destruct (update_handlers dr s) as [-> ->].
  - destruct c as [p|ps|p f' g'|f' g'|dr]; try by constructor. cbn [exec].
    rewrite update_events. apply Forall_forall.
    intros e (seg & Hseg & He)%elem_of_concat.
    apply list_elem_of_fmap in Hseg as (b & -> & Hb).
    rewrite update_button_events in He. cbv zeta in He.
    case_bool_decide; cbn [snd] in He; [by apply elem_of_nil in He|].
    unfold transition_calls, button_call, any_call in He. rewrite Hf, Hg in He.
    destruct (reads_high _ _), (Button.hasHandlers b), (ButtonHandler.hasHandlers _);
      cbn in He; rewrite ?elem_of_cons, ?elem_of_nil in He;
      intuition (by subst e).
Qed.

Lemma last_registerHandlers_wins_witness :
  snd (run [RegisterButton Byte.x02; Update (λ _, HIGH); Update (λ _, LOW)]
           (ButtonHandler.registerHandlers "newDown" "newUp"
              (construct (NewWith "oldDown" "oldUp"))))
  = [AnyPress (Some "newDown") 2; AnyRelease (Some "newUp") 2]
  ∧ Forall (λ e, match e with
                 | AnyPress h _ => h = Some "newDown"
                 | AnyRelease h _ => h = Some "newUp"
                 | _ => True
                 end)
      (snd (run [RegisterButton Byte.x02; Update (λ _, HIGH); Update (λ _, LOW)]
                (ButtonHandler.registerHandlers "newDown" "newUp"
                   (construct (NewWith "oldDown" "oldUp"))))).
Proof.
  split; [reflexivity|].
  apply last_registerHandlers_wins. repeat constructor.
Defined.

(** X9: the handlers of the [ButtonHandler] are only ever called with the
    number of a pin that was registered before the call (a value in
    0..255). *)
Theorem any_handler_gets_registered_pin (k : ctor) (cs : list call) :
  Forall (λ e, ∀ h q, e = AnyPress h q ∨ e = AnyRelease h q →
               ∃ p, p ∈ registered_pins cs ∧ q = int_of_byte p ∧ 0 ≤ q < 256)
    (snd (run cs (construct k))).
Proof.
  assert (Hgen : ∀ cs self,
    Forall (λ e, ∀ h q, e = AnyPress h q ∨ e = AnyRelease h q →
                 ∃ p, p ∈ map Button.pin (ButtonHandler.buttons self) ++ registered_pins cs
                      ∧ q = int_of_byte p ∧ 0 ≤ q < 256)
      (snd (run cs self))).
  { clear. induction cs as [|c cs IH]; intros self; [by constructor|].
    rewrite run_cons. cbn [snd]. apply Forall_app. split.
    - destruct c as [| | | |dr]; try by constructor. cbn [exec].
      rewrite update_events. apply Forall_forall.
      intros e (seg & Hseg & He)%elem_of_concat h q Hq.
      apply list_elem_of_fmap in Hseg as (b & -> & Hb).
      exists (Button.pin b). split; [|split].
      + apply elem_of_app. left. by apply list_elem_of_fmap_2.
      + apply (update_button_any_arg dr self b h). destruct Hq as [<-| <-]; auto.
      + rewrite (update_button_any_arg dr self b h q) by (destruct Hq as [<-| <-]; auto).
        apply int_of_byte_range.
    - eapply Forall_impl; [apply IH|]. intros e He h q Hq.
      destruct (He h q Hq) as (p & Hp & Hrest). exists p. split; [|done].
      rewrite exec_pins, <- app_assoc in Hp. done. }
  specialize (Hgen cs (construct k)). by destruct k.
Qed.

(** ** The index *)

Lemma index_last_append (self self' : ButtonHandler.t) (b : Button.t) :
  ButtonHandler.buttons self' = ButtonHandler.buttons self ++ [b] →
  ButtonHandler.pinMap self'
  = <[int_of_byte (Button.pin b) := Z.of_nat (length (ButtonHandler.buttons self))]>
      (ButtonHandler.pinMap self) →
  index_last self → index_last self'.
Proof.
  intros Hb Hm Hlast q i j b'. rewrite Hm, Hb, lookup_insert.
  case_decide as Hq.
  - intros [= <-] Hj%lookup_lt_Some _. rewrite length_app in Hj. cbn in Hj. lia.
  - intros Hi Hj Hpin. destruct (decide (j < length (ButtonHandler.buttons self))%nat) as [Hlt|Hge].
    + rewrite lookup_app_l in Hj by done. by eapply Hlast.
    + pose proof (lookup_lt_Some _ _ _ Hj) as Hj'. rewrite length_app in Hj'. cbn in Hj'.
      assert (j = length (ButtonHandler.buttons self)) as -> by lia.
      rewrite list_lookup_middle in Hj by done. injection Hj as <-. by destruct Hq.
Qed.

Lemma index_last_exec (c : call) (self : ButtonHandler.t) :
  index_last self → index_last (fst (exec c self)).
Proof.
  intros Hlast. destruct c as [p|ps|p f g|f g|dr]; cbn [exec fst].
  - eapply (index_last_append self _ (Button.new p)); eauto using registerButton_pinMap.
  - rewrite registerButton_list_foldl. revert self Hlast.
    induction ps as [|p ps IH]; intros self Hlast; [done|]. cbn [foldl]. apply IH.
    eapply (index_last_append self _ (Button.new p)); eauto using registerButton_pinMap.
  - eapply (index_last_append self _ (Button.new_with p f g));
      eauto using registerButton_with_pinMap.
  - done.
  - intros q i j b'. rewrite update_pinMap, update_buttons, list_lookup_fmap.
    intros Hi Hj Hpin. destruct (ButtonHandler.buttons self !! j) as [b|] eqn:Hb; [|done].
    injection Hj as <-. rewrite update_button_pin in Hpin. by eapply Hlast.
Qed.

Lemma index_last_run (k : ctor) (cs : list call) :
  index_last (fst (run cs (construct k))).
Proof.
  apply (run_preserves index_last); [apply index_last_exec|].
  intros q i j b. by destruct k.
Qed.

Lemma run_pins_lookup (k : ctor) (cs : list call) (j : nat) :
  registered_pins cs !! j
  = Button.pin <$> ButtonHandler.buttons (fst (run cs (construct k))) !! j.
Proof.
  rewrite <- list_lookup_fmap.
  change (fmap Button.pin) with (map Button.pin). rewrite run_pins. by destruct k.
Qed.

(** X10: [pinMap] binds exactly the registered pins, each to the position
    of its last registration.  After any program of registration and
    [update] calls, [pinMap[q]] is [i] if and only if the [i]-th
    registration (counting from 0) registered pin [q] and no later one
    did. *)
Theorem pinMap_is_last_registration (k : ctor) (cs : list call) (q i : Z) :
  ButtonHandler.pinMap (fst (run cs (construct k))) !! q = Some i
  ↔ 0 ≤ i
    ∧ (∃ p, registered_pins cs !! Z.to_nat i = Some p ∧ int_of_byte p = q)
    ∧ ∀ j p', registered_pins cs !! j = Some p' → int_of_byte p' = q →
              (j ≤ Z.to_nat i)%nat.
Proof.
  set (self := fst (run cs (construct k))).
  destruct (indexed_run k cs) as [Hinv Hall]. pose proof (index_last_run k cs) as Hlast.
  fold self in Hinv, Hall, Hlast.
  assert (Hfwd : ∀ i', ButtonHandler.pinMap self !! q = Some i' →
            0 ≤ i'
            ∧ (∃ p, registered_pins cs !! Z.to_nat i' = Some p ∧ int_of_byte p = q)
            ∧ ∀ j p', registered_pins cs !! j = Some p' → int_of_byte p' = q →
                      (j ≤ Z.to_nat i')%nat).
  { intros i' Hi'. destruct (Hinv q i' Hi') as (b & Hb & Hpin).
    apply vector_at_Some in Hb as [Hpos Hb]. split; [done|]. split.
    - exists (Button.pin b). split; [|done]. rewrite (run_pins_lookup k). fold self.
      by rewrite Hb.
    - intros j p' Hj Hp'. rewrite (run_pins_lookup k) in Hj. fold self in Hj.
      destruct (ButtonHandler.buttons self !! j) as [b'|] eqn:Hb'; [|done].
      injection Hj as <-. pose proof (Hlast q i' j b' Hi' Hb' Hp'). lia. }
  split; [apply Hfwd|].
  intros (Hpos & (p & Hp & Hpq) & Hmax).
  rewrite (run_pins_lookup k) in Hp. fold self in Hp.
  destruct (ButtonHandler.buttons self !! Z.to_nat i) as [b|] eqn:Hb; [|done].
  injection Hp as <-.
  destruct (Hall b (list_elem_of_lookup_2 _ _ _ Hb)) as [i' Hi']. rewrite Hpq in Hi'.
  destruct (Hfwd i' Hi') as (Hpos' & (p' & Hp' & Hpq') & Hmax').
  pose proof (Hmax _ _ Hp' Hpq').
  assert (Hreg : registered_pins cs !! Z.to_nat i = Some (Button.pin b)).
  { rewrite (run_pins_lookup k). fold self. by rewrite Hb. }
  pose proof (Hmax' _ _ Hreg Hpq).
  rewrite Hi'. f_equal. lia.
Qed.

(** X11: on a registered pin [getState] is a pure read of the newest
    record of that pin.  After any program of registration and [update]
    calls, [getState(P)] for a registered [P] leaves the [ButtonHandler]
    unchanged and returns the state of the record of [P] that is last in
    [buttons]; the read is never past the end. *)
Theorem getState_reads_last_record (k : ctor) (cs : list call) (P : byte) :
  let self := fst (run cs (construct k)) in
  P ∈ registered_pins cs →
  ∃ i b, ButtonHandler.buttons self !! i = Some b
         ∧ Button.pin b = P
         ∧ (∀ j b', ButtonHandler.buttons self !! j = Some b' → Button.pin b' = P →
                    (j ≤ i)%nat)
         ∧ ButtonHandler.getState (int_of_byte P) self = (Some (Button.state b), self).
Proof.
  intros self HP.
  destruct (indexed_run k cs) as [Hinv Hall]. pose proof (index_last_run k cs) as Hlast.
  fold self in Hinv, Hall, Hlast.
  assert (Hpins : P ∈ map Button.pin (ButtonHandler.buttons self)).
  { unfold self. rewrite run_pins. destruct k; by cbn. }
  apply list_elem_of_fmap in Hpins as (b0 & -> & Hb0).
  destruct (Hall b0 Hb0) as [i Hi]. destruct (Hinv _ _ Hi) as (b & Hb & Hpin).
  pose proof Hb as Hb'. apply vector_at_Some in Hb' as [Hpos Hb'].
  exists (Z.to_nat i), b. split; [done|]. split; [by apply int_of_byte_inj|]. split.
  - intros j b' Hj Hpin'. rewrite <- Hpin' in Hi.
    pose proof (Hlast _ i j b' Hi Hj eq_refl). lia.
  - by rewrite (getState_bound _ _ _ Hi), Hb.
Qed.

Lemma getState_reads_last_record_witness :
  let cs := [RegisterButton Byte.x05; Update (λ _, HIGH); RegisterButton Byte.x02;
             RegisterButtonWith Byte.x05 "down5" "up5"] in
  let self := fst (run cs (construct New)) in
  ∃ i b, ButtonHandler.buttons self !! i = Some b
         ∧ Button.pin b = Byte.x05
         ∧ (∀ j b', ButtonHandler.buttons self !! j = Some b' → Button.pin b' = Byte.x05 →
                    (j ≤ i)%nat)
         ∧ ButtonHandler.getState 5 self = (Some (Button.state b), self).
Proof.
  cbv zeta.
  apply (getState_reads_last_record New
    [RegisterButton Byte.x05; Update (λ _, HIGH); RegisterButton Byte.x02;
     RegisterButtonWith Byte.x05 "down5" "up5"] Byte.x05).
  apply list_elem_of_In. cbn. by left.
Defined.

(** ** [getState] and its entry for an unknown pin *)

Lemma registerButton_stray (p : byte) (q : Z) (self : ButtonHandler.t) :
  ButtonHandler.pinMap self !! q = None →
  ButtonHandler.registerButton p (ButtonHandler.pinMap_assign q 0 self)
  = ButtonHandler.registerButton p self
  ∨ (ButtonHandler.pinMap (ButtonHandler.registerButton p self) !! q = None
     ∧ ButtonHandler.registerButton p (ButtonHandler.pinMap_assign q 0 self)
       = ButtonHandler.pinMap_assign q 0 (ButtonHandler.registerButton p self)).
Proof.
  intros Hq. destruct (decide (int_of_byte p = q)) as [<-|Hne].
  - left. unfold ButtonHandler.registerButton, ButtonHandler.pinMap_assign. cbn.
    f_equal. apply insert_insert_eq.
  - right. split.
    + by rewrite registerButton_pinMap, lookup_insert_ne.
    + unfold ButtonHandler.registerButton, ButtonHandler.pinMap_assign. cbn.
      f_equal. by apply insert_insert_ne.
Qed.

Lemma registerButton_with_stray (p : byte) (f g : callback) (q : Z) (self : ButtonHandler.t) :
  ButtonHandler.pinMap self !! q = None →
  ButtonHandler.registerButton_with p f g (ButtonHandler.pinMap_assign q 0 self)
  = ButtonHandler.registerButton_with p f g self
  ∨ (ButtonHandler.pinMap (ButtonHandler.registerButton_with p f g self) !! q = None
     ∧ ButtonHandler.registerButton_with p f g (ButtonHandler.pinMap_assign q 0 self)
       = ButtonHandler.pinMap_assign q 0 (ButtonHandler.registerButton_with p f g self)).
Proof.
  intros Hq. destruct (decide (int_of_byte p = q)) as [<-|Hne].
  - left. unfold ButtonHandler.registerButton_with, ButtonHandler.pinMap_assign. cbn.
    f_equal. apply insert_insert_eq.
  - right. split.
    + by rewrite registerButton_with_pinMap, lookup_insert_ne.
    + unfold ButtonHandler.registerButton_with, ButtonHandler.pinMap_assign. cbn.
      f_equal. by apply insert_insert_ne.
Qed.

Lemma update_stray (digitalRead : byte → Z) (q : Z) (self : ButtonHandler.t) :
  ButtonHandler.update digitalRead (ButtonHandler.pinMap_assign q 0 self)
  = (ButtonHandler.pinMap_assign q 0 (fst (ButtonHandler.update digitalRead self)),
     snd (ButtonHandler.update digitalRead self)).
Proof.
  unfold ButtonHandler.update. rewrite !update_loop_map. reflexivity.
Qed.

(** The entry [q -> 0] in front of a call either disappears in the call or
    is carried through it; the call makes the same handler calls. *)
Lemma exec_stray (c : call) (q : Z) (self : ButtonHandler.t) :
  ButtonHandler.pinMap self !! q = None →
  snd (exec c (ButtonHandler.pinMap_assign q 0 self)) = snd (exec c self)
  ∧ (fst (exec c (ButtonHandler.pinMap_assign q 0 self)) = fst (exec c self)
     ∨ (ButtonHandler.pinMap (fst (exec c self)) !! q = None
        ∧ fst (exec c (ButtonHandler.pinMap_assign q 0 self))
          = ButtonHandler.pinMap_assign q 0 (fst (exec c self)))).
Proof.
  intros Hq. destruct c as [p|ps|p f g|f g|dr]; cbn [exec fst snd].
  - split; [done|]. by apply registerButton_stray.
  - split; [done|]. rewrite !registerButton_list_foldl. revert self Hq.
    induction ps as [|p ps IH]; intros self Hq; [by right|]. cbn [foldl].
    destruct (registerButton_stray p q self Hq) as [->|[Hq' ->]]; [by left|].
    by apply IH.
  - split; [done|]. by apply registerButton_with_stray.
  - split; [done|]. by right.
  - rewrite update_stray. cbn [fst snd]. split; [done|]. right.
    split; [|done]. by rewrite update_pinMap.
Qed.

Lemma exec_api_stray (a : api) (q : Z) (self : ButtonHandler.t) :
  ButtonHandler.pinMap self !! q = None →
  snd (exec_api a (ButtonHandler.pinMap_assign q 0 self)) = snd (exec_api a self)
  ∧ (fst (exec_api a (ButtonHandler.pinMap_assign q 0 self)) = fst (exec_api a self)
     ∨ (ButtonHandler.pinMap (fst (exec_api a self)) !! q = None
        ∧ fst (exec_api a (ButtonHandler.pinMap_assign q 0 self))
          = ButtonHandler.pinMap_assign q 0 (fst (exec_api a self)))).
Proof.
  intros Hq. destruct a as [c|r]; cbn [exec_api].
  - destruct (exec_stray c q self Hq) as [Hev Hst].
    destruct (exec c (ButtonHandler.pinMap_assign q 0 self)) as [s1 e1],
             (exec c self) as [s2 e2]. cbn in *. by subst.
  - destruct (decide (r = q)) as [->|Hne].
    + rewrite (getState_unbound q self Hq).
      rewrite (getState_bound q 0 (ButtonHandler.pinMap_assign q 0 self))
        by apply lookup_insert_eq.
      cbn. split; [done|]. by left.
    + destruct (ButtonHandler.pinMap self !! r) as [v|] eqn:Hr.
      * rewrite (getState_bound r v self Hr).
        rewrite (getState_bound r v (ButtonHandler.pinMap_assign q 0 self))
          by (cbn; by rewrite lookup_insert_ne).
        cbn. split; [done|]. by right.
      * rewrite (getState_unbound r self Hr).
        rewrite (getState_unbound r (ButtonHandler.pinMap_assign q 0 self))
          by (cbn; by rewrite lookup_insert_ne).
        cbn. split; [done|]. right. split; [by rewrite lookup_insert_ne|].
        unfold ButtonHandler.pinMap_assign. cbn. f_equal. by apply insert_insert_ne.
Qed.

Lemma run_api_cons (a : api) (prog : list api) (self : ButtonHandler.t) :
  run_api (a :: prog) self
  = (fst (run_api prog (fst (exec_api a self))),
     snd (exec_api a self) :: snd (run_api prog (fst (exec_api a self)))).
Proof.
  cbn [run_api]. destruct (exec_api a self) as [s1 o1]. cbn.
  by destruct (run_api prog s1).
Qed.

Lemma run_api_stray (prog : list api) (q : Z) (self : ButtonHandler.t) :
  ButtonHandler.pinMap self !! q = None →
  snd (run_api prog (ButtonHandler.pinMap_assign q 0 self)) = snd (run_api prog self).
Proof.
  revert self. induction prog as [|a prog IH]; intros self Hq; [done|].
  rewrite !run_api_cons. cbn [snd].
  destruct (exec_api_stray a q self Hq) as [-> [->|[Hq' ->]]]; [done|].
  by rewrite IH.
Qed.

(** X12: what [getState] writes is never seen.  [getState] on an unknown
    pin adds an entry to [pinMap], but whatever calls follow (registrations,
    [update]s, further [getState]s on any pins), each [getState] returns
    and each [update] calls exactly what it would have without that
    call. *)
Theorem getState_not_observable (q : Z) (prog : list api) (self : ButtonHandler.t) :
  snd (run_api prog (snd (ButtonHandler.getState q self))) = snd (run_api prog self).
Proof.
  destruct (ButtonHandler.pinMap self !! q) as [v|] eqn:Hq.
  - by rewrite (getState_bound q v self Hq).
  - rewrite (getState_unbound q self Hq). cbn [snd]. by apply run_api_stray.
Qed.

(** ** Presses and releases over a whole program *)

Lemma record_events_cons (i : nat) (c : call) (cs : list call) (self : ButtonHandler.t)
    (b : Button.t) :
  ButtonHandler.buttons self !! i = Some b →
  record_events i (c :: cs) self
  = match c with
    | Update digitalRead => snd (ButtonHandler.update_button digitalRead self b)
    | _ => []
    end ++ record_events i cs (fst (exec c self)).
Proof.
  intros Hb. cbn [record_events]. destruct c as [| | | |dr]; try done.
  by rewrite (update_segments_lookup dr self i b Hb).
Qed.

(** The record at [i] after one call, and the calls made for it. *)
Lemma exec_record (c : call) (self : ButtonHandler.t) (i : nat) (b : Button.t) :
  ButtonHandler.buttons self !! i = Some b →
  (ButtonHandler.buttons (fst (exec c self)) !! i = Some b
   ∧ match c with
     | Update digitalRead => snd (ButtonHandler.update_button digitalRead self b)
     | _ => []
     end = [])
  ∨ (∃ digitalRead, c = Update digitalRead
       ∧ let lvl := reads_high digitalRead (Button.pin b) in
         lvl = negb (Button.state b)
         ∧ ButtonHandler.buttons (fst (exec c self)) !! i = Some (Button.set_state lvl b)
         ∧ snd (ButtonHandler.update_button digitalRead self b)
           = transition_calls lvl self b).
Proof.
  intros Hb. destruct (is_update c) eqn:Hc.
  - destruct c as [| | | |dr]; try done. cbn [exec].
    rewrite (update_lookup dr self i b Hb), update_button_events. cbv zeta.
    case_bool_decide as Hst; cbn [fst snd]; [by left|].
    right. exists dr. split; [done|]. cbv zeta. split; [|split; [done|]].
    + by destruct (reads_high _ _), (Button.state b).
    + rewrite update_button_events. cbv zeta. by rewrite bool_decide_eq_false_2.
  - left. destruct (exec_lookup c self i b Hb) as (b' & Hb' & _ & Hsame).
    rewrite Hsame in Hb' by (by destruct c). split; [done|]. by destruct c.
Qed.

Lemma exec_hasHandlers_true (c : call) (self : ButtonHandler.t) :
  ButtonHandler.hasHandlers self = true →
  ButtonHandler.hasHandlers (fst (exec c self)) = true.
Proof.
  intros H. destruct c as [p|ps|p f g|f g|dr]; cbn [exec fst]; try done.
  - by destruct (registerButton_list_handlers ps self) as (-> & _).
  - by rewrite update_hasHandlers.
Qed.

(** X13: the handlers of a record are called press, release, press, ...
    For a record that has handlers, the calls a program makes to them, over
    all its [update]s and whatever other calls lie between, are calls to
    the record's own two handlers and alternate between press and release,
    the first one being a press if the stored state is [false] (as it is
    after registration) and a release otherwise. *)
Theorem button_handler_calls_alternate (cs : list call) (self : ButtonHandler.t)
    (i : nat) (b : Button.t) :
  ButtonHandler.buttons self !! i = Some b →
  Button.hasHandlers b = true →
  ∃ ds, List.filter is_button_event (record_events i cs self)
        = map (λ d, button_call d b) ds
        ∧ alternating (Button.state b) ds.
Proof.
  revert self b. induction cs as [|c cs IH]; intros self b Hb Hh.
  - by exists [].
  - rewrite (record_events_cons i c cs self b Hb), List.filter_app.
    destruct (exec_record c self i b Hb) as [[Hb' ->]|(dr & -> & Hlvl & Hb' & Hev)].
    + destruct (IH _ _ Hb' Hh) as (ds & -> & Halt). by exists ds.
    + cbv zeta in Hlvl, Hb', Hev. rewrite Hev.
      destruct (IH _ _ Hb' Hh) as (ds & -> & Halt).
      exists (reads_high dr (Button.pin b) :: ds). split; [|done].
      unfold transition_calls. rewrite Hh. unfold button_call, any_call.
      by destruct (reads_high dr (Button.pin b)), (ButtonHandler.hasHandlers self).
Qed.

Lemma button_handler_calls_alternate_witness :
  let self := fst (run [RegisterButtonWith Byte.x05 "down5" "up5"]
                       (construct (NewWith "anyDown" "anyUp"))) in
  let cs := [Update (λ _, HIGH); Update (λ _, HIGH); RegisterButton Byte.x05;
             Update (λ _, LOW); Update (λ _, HIGH)] in
  List.filter is_button_event (record_events 0 cs self)
  = [ButtonPress (Some "down5"); ButtonRelease (Some "up5"); ButtonPress (Some "down5")]
  ∧ ∃ ds, List.filter is_button_event (record_events 0 cs self)
          = map (λ d, button_call d (Button.new_with Byte.x05 "down5" "up5")) ds
          ∧ alternating false ds.
Proof.
  cbv zeta. split; [reflexivity|].
  apply (button_handler_calls_alternate _ _ 0 (Button.new_with Byte.x05 "down5" "up5"));
    reflexivity.
Defined.

(** X14: with handlers on the [ButtonHandler], the calls made to them for
    one record alternate in the same way: a press handler call for a record
    is never followed by another press handler call for it without a
    release handler call in between, also across [registerHandlers] calls
    that replace the handlers. *)
Theorem any_handler_calls_alternate (cs : list call) (self : ButtonHandler.t)
    (i : nat) (b : Button.t) :
  ButtonHandler.buttons self !! i = Some b →
  ButtonHandler.hasHandlers self = true →
  alternating (Button.state b)
    (map is_press (List.filter is_any_event (record_events i cs self)))
  ∧ Forall (λ e, ∀ h q, e = AnyPress h q ∨ e = AnyRelease h q →
                 q = int_of_byte (Button.pin b))
      (record_events i cs self).
Proof.
  revert self b. induction cs as [|c cs IH]; intros self b Hb Hh.
  - split; [done | by constructor].
  - pose proof (exec_hasHandlers_true c self Hh) as Hh'.
    rewrite (record_events_cons i c cs self b Hb), List.filter_app, map_app.
    destruct (exec_record c self i b Hb) as [[Hb' ->]|(dr & -> & Hlvl & Hb' & Hev)].
    + destruct (IH _ _ Hb' Hh') as [Halt Harg]. by split.
    + cbv zeta in Hlvl, Hb', Hev. rewrite Hev.
      destruct (IH _ _ Hb' Hh') as [Halt Harg]. cbn [Button.state Button.set_state Button.pin] in *.
      unfold transition_calls. rewrite Hh. unfold button_call, any_call. split.
      * destruct (reads_high dr (Button.pin b)), (Button.hasHandlers b); by cbn.
      * apply Forall_app. split; [|done].
        destruct (reads_high dr (Button.pin b)), (Button.hasHandlers b);
          repeat constructor; intros h q [?|?]; congruence.
Qed.

Lemma any_handler_calls_alternate_witness :
  let self := fst (run [RegisterButton Byte.x05] (construct (NewWith "anyDown" "anyUp"))) in
  let cs := [Update (λ _, HIGH); RegisterHandlers "newDown" "newUp"; Update (λ _, HIGH);
             Update (λ _, LOW)] in
  record_events 0 cs self = [AnyPress (Some "anyDown") 5; AnyRelease (Some "newUp") 5]
  ∧ alternating false (map is_press (List.filter is_any_event (record_events 0 cs self))).
Proof.
  cbv zeta. split; [reflexivity|].
  apply (any_handler_calls_alternate _ _ 0 (Button.new Byte.x05)); reflexivity.
Defined.

(** ** Registering a vector of pins *)

(** X15: registering the pins of a vector appends one record without
    handlers and with [state = false] per element, duplicates included,
    touches neither the handlers of the [ButtonHandler] nor the records
    already there, does nothing for an empty vector, and registering
    [ps ++ qs] is registering [ps] and then [qs]. *)
Theorem registerButton_list_effect (ps qs : list byte) (self : ButtonHandler.t) :
  ButtonHandler.buttons (ButtonHandler.registerButton_list ps self)
  = ButtonHandler.buttons self ++ map Button.new ps
  ∧ ButtonHandler.hasHandlers (ButtonHandler.registerButton_list ps self)
    = ButtonHandler.hasHandlers self
  ∧ ButtonHandler.pressHandler (ButtonHandler.registerButton_list ps self)
    = ButtonHandler.pressHandler self
  ∧ ButtonHandler.releaseHandler (ButtonHandler.registerButton_list ps self)
    = ButtonHandler.releaseHandler self
  ∧ ButtonHandler.registerButton_list [] self = self
  ∧ ButtonHandler.registerButton_list (ps ++ qs) self
    = ButtonHandler.registerButton_list qs (ButtonHandler.registerButton_list ps self).
Proof.
  split; [apply registerButton_list_buttons|].
  destruct (registerButton_list_handlers ps self) as (-> & -> & ->).
  repeat split. by rewrite !registerButton_list_foldl, foldl_app.
Qed.

(** ** When [getState] reads past the end *)

(** X16: after any program of registration and [update] calls, [getState]
    reads past the end of [buttons] exactly when no pin was registered at
    all; once one pin is registered, [getState] returns a stored state for
    every argument, registered or not. *)
Theorem getState_out_of_bounds_iff_empty (k : ctor) (cs : list call) (q : Z) :
  fst (ButtonHandler.getState q (fst (run cs (construct k)))) = None
  ↔ registered_pins cs = [].
Proof.
  set (self := fst (run cs (construct k))).
  assert (Hempty : registered_pins cs = [] ↔ ButtonHandler.buttons self = []).
  { assert (Hp : map Button.pin (ButtonHandler.buttons self) = registered_pins cs)
      by (unfold self; rewrite run_pins; by destruct k).
    rewrite <- Hp. split; [apply map_eq_nil | by intros ->]. }
  rewrite Hempty.
  destruct (ButtonHandler.pinMap self !! q) as [i|] eqn:Hq.
  - rewrite (getState_bound q i self Hq). cbn [fst].
    destruct (proj1 (indexed_run k cs) q i Hq) as (b & Hb & _). fold self in Hb.
    rewrite Hb. cbn. split; [done|]. intros Hnil. rewrite Hnil in Hb.
    apply vector_at_Some in Hb as [_ Hb]. by rewrite lookup_nil in Hb.
  - rewrite (getState_unbound q self Hq). cbn [fst].
    by destruct (ButtonHandler.buttons self).
Qed.
